(** * Mire: a shallow embedding of the formatters, the sampler, the external
      hook and the dispatch core, with the properties stated about them.

    Byte sequences ([[]byte]) and Go strings are both sequences of 8-bit
    bytes; they are embedded as [string], whose characters ([ascii]) are
    8-bit bytes.  A [bytes.Buffer] is the sequence written so far, and every
    write is threaded explicitly.  Go's signed machine integers are embedded
    as [Z]; where the source does arithmetic that can leave the 64-bit range
    the wrap-around is written out. *)

From Stdlib Require Import ZArith NArith List String Ascii Bool Lia.
From Stdlib Require Import DecimalString DecimalZ Permutation.
Import ListNotations.

Open Scope string_scope.
Open Scope Z_scope.

(* ================================================================== *)
(** * Part I: the embedding                                            *)
(* ================================================================== *)

(** ** The Go runtime and standard library pieces the sources rely on *)

Module Go.

(** The double quote (byte 34) and the backslash (byte 92). *)
Definition dq : ascii := "034"%char.
Definition bs : ascii := "092"%char.

(** A one-byte string. *)
Definition byte1 (c : ascii) : string := String c EmptyString.

(** [bytes.Buffer]: the bytes written so far. *)
Definition Buffer := string.

Definition Write (buf : Buffer) (p : string) : Buffer := buf ++ p.
Definition WriteString (buf : Buffer) (s : string) : Buffer := buf ++ s.
Definition WriteByte (buf : Buffer) (c : ascii) : Buffer := buf ++ byte1 c.
Definition Reset (buf : Buffer) : Buffer := EmptyString.

(** [s[:n]] for [0 <= n <= len(s)]. *)
Definition slice_to (s : string) (n : Z) : string :=
  substring 0 (Z.to_nat n) s.

Definition len (s : string) : Z := Z.of_nat (String.length s).

(** [bytes.Contains(b, sub)]: does [sub] occur in [b]? *)
Fixpoint Contains (b sub : string) : bool :=
  prefix sub b ||
  match b with
  | EmptyString => false
  | String _ b' => Contains b' sub
  end.

(** [strconv.AppendInt(dst, i, 10)], [strconv.AppendUint(dst, i, 10)],
    [strconv.Itoa], [strconv.FormatInt(i, 10)]: the decimal digits, with a
    leading minus sign for a negative number. *)
Definition FormatInt (i : Z) : string :=
  NilZero.string_of_int (Z.to_int i).
Definition AppendInt (dst : string) (i : Z) : string := dst ++ FormatInt i.
Definition AppendUint (dst : string) (i : Z) : string := dst ++ FormatInt i.

(** [strconv.AppendBool]. *)
Definition AppendBool (dst : string) (b : bool) : string :=
  dst ++ (if b then "true" else "false").

(** A floating-point number is taken through its only observation in the
    sources: what [strconv.AppendFloat(nil, f, fmt, prec, bitSize)]
    produces for it. *)
Record float := { FormatFloat : ascii -> Z -> Z -> string }.
Definition AppendFloat (dst : string) (f : float) (fmt : ascii)
    (prec bitSize : Z) : string :=
  dst ++ FormatFloat f fmt prec bitSize.

(** A [time.Time] is taken through [AppendFormat(nil, layout)]. *)
Record Time := { Time_Format : string -> string }.
Definition AppendFormat (t : Time) (dst : string) (layout : string) : string :=
  dst ++ Time_Format t layout.

(** Values of the interface type [error].  [errorString] is an error made
    by [errors.New] or by [fmt.Errorf] without [%w]; [wrapError] is made by
    [fmt.Errorf] with [%w] and keeps the error it wraps; [appenderError]
    is an error that also implements [core.ErrorAppender], whose
    [AppendError] appends the given bytes to a buffer. *)
Inductive error : Type :=
| errorString (msg : string)
| wrapError (msg : string) (err : error)
| appenderError (msg : string) (appended : string).

Definition Error (e : error) : string :=
  match e with
  | errorString msg => msg
  | wrapError msg _ => msg
  | appenderError msg _ => msg
  end.

Definition Unwrap (e : error) : option error :=
  match e with
  | wrapError _ err => Some err
  | _ => None
  end.

(** [fmt.Errorf(prefix + "%w", err)]. *)
Definition Errorf_w (pre : string) (err : error) : error :=
  wrapError (pre ++ Error err) err.

(** A Go map ranged over: the association list of its entries in the
    order the [range] statement visits them.  Keys are distinct. *)
Definition map (V : Type) := list (string * V).

Fixpoint lookup {V : Type} (m : map V) (k : string) : option V :=
  match m with
  | [] => None
  | (k', v) :: m' => if String.eqb k k' then Some v else lookup m' k
  end.

(** [m[k] = v]. *)
Definition store {V : Type} (m : map V) (k : string) (v : V) : map V :=
  match lookup m k with
  | Some _ =>
      List.map (fun kv => if String.eqb k (fst kv) then (k, v) else kv) m
  | None => (m ++ [(k, v)])%list
  end.

Definition keys {V : Type} (m : map V) : list string := List.map fst m.

(** [s[n:]] for [0 <= n <= len(s)]. *)
Definition slice_from (s : string) (n : Z) : string :=
  substring (Z.to_nat n) (String.length s - Z.to_nat n) s.

(** [strings.Index(s, substr)]: the index of the first occurrence of
    [substr] in [s], or -1. *)
Definition Index (s substr : string) : Z :=
  match String.index 0 substr s with
  | Some n => Z.of_nat n
  | None => -1
  end.

(** [strings.ToLower] on ASCII text: the letters A to Z go to a to z. *)
Definition lowerByte (c : ascii) : ascii :=
  let n := N_of_ascii c in
  if ((65 <=? n) && (n <=? 90))%N then ascii_of_N (n + 32) else c.

Fixpoint ToLower (s : string) : string :=
  match s with
  | EmptyString => EmptyString
  | String c rest => String (lowerByte c) (ToLower rest)
  end.

End Go.

(** ** Package [core] *)

Module core.
Import Go.

(** Modelled from the spec: the package [core] is not among the sources;
    the severity is the ordered enumeration
    TRACE < DEBUG < INFO < NOTICE < WARN < ERROR < FATAL < PANIC, and
    [Level.Bytes] gives the label of a level. *)
Inductive Level : Type :=
| TRACE | DEBUG | INFO | NOTICE | WARN | ERROR | FATAL | PANIC.

Definition Level_rank (l : Level) : Z :=
  match l with
  | TRACE => 0 | DEBUG => 1 | INFO => 2 | NOTICE => 3
  | WARN => 4 | ERROR => 5 | FATAL => 6 | PANIC => 7
  end.

Definition Level_Bytes (l : Level) : string :=
  match l with
  | TRACE => "TRACE" | DEBUG => "DEBUG" | INFO => "INFO"
  | NOTICE => "NOTICE" | WARN => "WARN" | ERROR => "ERROR"
  | FATAL => "FATAL" | PANIC => "PANIC"
  end.

(** A value of type [interface{}], by its dynamic type.  [VOther] stands
    for a value of any type the sources do not name (a struct, a slice of
    something else, ...). *)
Inductive Value : Type :=
| VString (v : string)
| VBytes (v : string)
| VInt (v : Z) | VInt8 (v : Z) | VInt16 (v : Z) | VInt32 (v : Z)
| VInt64 (v : Z)
| VUint (v : Z) | VUint8 (v : Z) | VUint16 (v : Z) | VUint32 (v : Z)
| VUint64 (v : Z)
| VFloat32 (v : float) | VFloat64 (v : float)
| VBool (v : bool)
| VNil
| VError (v : error)
| VOther.

Record CallerInfo := { File : string; Line : Z }.

(** The fields of [core.LogEntry] that the formatters read; [Level_] and
    [Error_] are its fields [Level] and [Error]. *)
Record LogEntry := {
  Timestamp : Time;
  Level_ : Level;
  Message : string;
  PID : Z;
  GoroutineID : string;
  TraceID : string;
  SpanID : string;
  UserID : string;
  Caller : option CallerInfo;
  Fields : map Value;
  StackTrace : string;
  Error_ : option error
}.

(** [core.S2b]: the bytes of a string, without copying. *)
Definition S2b (s : string) : string := s.

End core.

(** ** Package [util] *)

Module util.
Import Go core.

(** Modelled from the spec: the pools of package [util] are not among the
    sources; a pooled slice or buffer is handed out reset to length zero
    ("all fields cleared to zero-length/empty"). *)
Definition GetSmallByteSliceFromPool : string := EmptyString.
Definition GetStringSliceFromPool : list string := [].
Definition GetBufferFromPool : Buffer := EmptyString.

Definition StringToBytes (s : string) : string := s.

Definition convertValueToString (value : Value) : string :=
  match value with
  | VString v => v
  | VBytes v => v
  | VInt v => FormatInt v
  | VInt8 v => FormatInt v
  | VInt16 v => FormatInt v
  | VInt32 v => FormatInt v
  | VInt64 v => FormatInt v
  | VUint v => FormatInt v
  | VUint8 v => FormatInt v
  | VUint16 v => FormatInt v
  | VUint32 v => FormatInt v
  | VUint64 v => FormatInt v
  | VFloat32 v => FormatFloat v "g" (-1) 32
  | VFloat64 v => FormatFloat v "g" (-1) 64
  | VBool v => if v then "true" else "false"
  | VNil => "null"
  | _ => "<complex-type>"
  end.

(** The tail of [FormatValue], after the type switch has chosen
    [content]: truncation to [maxWidth], else quoting when the content
    holds a space. *)
Definition writeContent (buf : Buffer) (content : string) (maxWidth : Z)
    : Buffer :=
  if (0 <? maxWidth) && (maxWidth <? len content) then
    let buf := Write buf (slice_to content maxWidth) in
    Write buf "..."
  else
    let needsQuote := Contains content " " in
    if needsQuote then
      let buf := WriteByte buf dq in
      let buf := Write buf content in
      WriteByte buf dq
    else
      Write buf content.

Definition FormatValue (buf : Buffer) (value : Value) (maxWidth : Z)
    : Buffer :=
  let tempBuf := GetSmallByteSliceFromPool in
  let tempBuf0 := slice_to tempBuf 0 in
  match value with
  | VString v => writeContent buf (StringToBytes v) maxWidth
  | VBytes v => writeContent buf v maxWidth
  | VInt v => writeContent buf (AppendInt tempBuf0 v) maxWidth
  | VInt8 v => writeContent buf (AppendInt tempBuf0 v) maxWidth
  | VInt16 v => writeContent buf (AppendInt tempBuf0 v) maxWidth
  | VInt32 v => writeContent buf (AppendInt tempBuf0 v) maxWidth
  | VInt64 v => writeContent buf (AppendInt tempBuf0 v) maxWidth
  | VUint v => writeContent buf (AppendUint tempBuf0 v) maxWidth
  | VUint8 v => writeContent buf (AppendUint tempBuf0 v) maxWidth
  | VUint16 v => writeContent buf (AppendUint tempBuf0 v) maxWidth
  | VUint32 v => writeContent buf (AppendUint tempBuf0 v) maxWidth
  | VUint64 v => writeContent buf (AppendUint tempBuf0 v) maxWidth
  | VFloat32 v => writeContent buf (AppendFloat tempBuf0 v "f" 2 32) maxWidth
  | VFloat64 v => writeContent buf (AppendFloat tempBuf0 v "f" 2 64) maxWidth
  | VBool v => writeContent buf (AppendBool tempBuf0 v) maxWidth
  | VError v =>
      match v with
      | appenderError _ appended => Write buf appended
      | _ => writeContent buf (StringToBytes (Error v)) maxWidth
      end
  | VNil | VOther =>
      let tempStr := convertValueToString value in
      writeContent buf (StringToBytes tempStr) maxWidth
  end.

Definition FormatTimestamp (buf : Buffer) (t : Time) (format : string)
    : Buffer :=
  let tempBuf := GetSmallByteSliceFromPool in
  let tsBytes := AppendFormat t (slice_to tempBuf 0) format in
  Write buf tsBytes.

End util.

(** ** The Go standard library package [encoding/csv], writer side *)

Module encoding_csv.
Import Go.

(** [csv.Writer]: [w] is the destination and [pending] what the writer's
    internal [bufio.Writer] holds until [Flush]. *)
Record Writer := {
  Comma : ascii;
  UseCRLF : bool;
  w : Buffer;
  pending : string
}.

Definition NewWriter (buf : Buffer) : Writer :=
  {| Comma := ","%char; UseCRLF := false; w := buf; pending := EmptyString |}.

Definition validDelim (r : ascii) : bool :=
  negb (Ascii.eqb r "000") && negb (Ascii.eqb r dq) &&
  negb (Ascii.eqb r "013") && negb (Ascii.eqb r "010").

Definition errInvalidDelim : error := errorString "csv: invalid field or comment delimiter".

(** Does [field] hold a byte that forces quoting? *)
Fixpoint hasSpecial (comma : ascii) (field : string) : bool :=
  match field with
  | EmptyString => false
  | String c rest =>
      Ascii.eqb c "010" || Ascii.eqb c "013" || Ascii.eqb c dq ||
      Ascii.eqb c comma || hasSpecial comma rest
  end.

(** [unicode.IsSpace] of the first rune of [field]: the ASCII spaces and the
    UTF-8 encodings of U+0085, U+00A0, U+1680, U+2000..U+200A, U+2028,
    U+2029, U+202F, U+205F and U+3000. *)
Definition firstRuneIsSpace (field : string) : bool :=
  match field with
  | EmptyString => false
  | String c0 rest =>
      let b0 := N_of_ascii c0 in
      if ((9 <=? b0) && (b0 <=? 13))%N || (b0 =? 32)%N then true
      else
        match rest with
        | EmptyString => false
        | String c1 rest1 =>
            let b1 := N_of_ascii c1 in
            if (b0 =? 194)%N then (b1 =? 133)%N || (b1 =? 160)%N
            else
              match rest1 with
              | EmptyString => false
              | String c2 _ =>
                  let b2 := N_of_ascii c2 in
                  ((b0 =? 225) && (b1 =? 154) && (b2 =? 128))%N ||
                  ((b0 =? 226) && (b1 =? 128) &&
                   (((128 <=? b2) && (b2 <=? 138)) || (b2 =? 168) ||
                    (b2 =? 169) || (b2 =? 175)))%N ||
                  ((b0 =? 226) && (b1 =? 129) && (b2 =? 159))%N ||
                  ((b0 =? 227) && (b1 =? 128) && (b2 =? 128))%N
              end
        end
  end.

Definition fieldNeedsQuotes (wr : Writer) (field : string) : bool :=
  if String.eqb field EmptyString then false
  else if String.eqb field (byte1 bs ++ ".") then true
  else if hasSpecial (Comma wr) field then true
  else firstRuneIsSpace field.

Fixpoint quoteBody (useCRLF : bool) (field : string) : string :=
  match field with
  | EmptyString => EmptyString
  | String c rest =>
      (if Ascii.eqb c dq then byte1 dq ++ byte1 dq
       else if Ascii.eqb c "013" then
         (if useCRLF then EmptyString else byte1 "013")
       else if Ascii.eqb c "010" then
         (if useCRLF then byte1 "013" ++ byte1 "010" else byte1 "010")
       else byte1 c)
      ++ quoteBody useCRLF rest
  end.

Definition encodeField (wr : Writer) (field : string) : string :=
  if fieldNeedsQuotes wr field
  then byte1 dq ++ quoteBody (UseCRLF wr) field ++ byte1 dq
  else field.

Fixpoint encodeFields (wr : Writer) (n : nat) (record : list string) : string :=
  match record with
  | [] => EmptyString
  | field :: rest =>
      (match n with O => EmptyString | S _ => byte1 (Comma wr) end)
      ++ encodeField wr field ++ encodeFields wr (S n) rest
  end.

(** The bytes [Write] emits for one record: the encoded fields separated by
    the comma, then the line terminator. *)
Definition encodeRecord (wr : Writer) (record : list string) : string :=
  encodeFields wr 0 record ++
  (if UseCRLF wr then byte1 "013" ++ byte1 "010" else byte1 "010").

Definition Write (wr : Writer) (record : list string) : Writer * option error :=
  if negb (validDelim (Comma wr)) then (wr, Some errInvalidDelim)
  else
    ({| Comma := Comma wr; UseCRLF := UseCRLF wr; w := w wr;
        pending := pending wr ++ encodeRecord wr record |}, None).

Definition Flush (wr : Writer) : Writer :=
  {| Comma := Comma wr; UseCRLF := UseCRLF wr;
     w := Go.Write (w wr) (pending wr); pending := EmptyString |}.

(** Writing into a [bytes.Buffer] does not fail. *)
Definition Error (wr : Writer) : option error := None.

End encoding_csv.

(** ** Package [formatter] *)

Module formatter.

(** *** json.go *)

Module json.
Import Go core util.

Record JSONFormatter := {
  PrettyPrint : bool;
  TimestampFormat : string;
  ShowCaller : bool;
  ShowGoroutine : bool;
  ShowPID : bool;
  ShowTraceInfo : bool;
  EnableStackTrace : bool;
  EnableDuration : bool;
  FieldKeyMap : map string;
  DisableHTMLEscape : bool;
  SensitiveFields : list string;
  MaskSensitiveData : bool;
  MaskStringValue : string;
  MaskStringBytes : string;
  FieldTransformers : map (Value -> Value)
}.

Definition NewJSONFormatter : JSONFormatter :=
  {| PrettyPrint := false; TimestampFormat := EmptyString;
     ShowCaller := false; ShowGoroutine := false; ShowPID := false;
     ShowTraceInfo := false; EnableStackTrace := false;
     EnableDuration := false; FieldKeyMap := [];
     DisableHTMLEscape := false; SensitiveFields := [];
     MaskSensitiveData := false; MaskStringValue := EmptyString;
     MaskStringBytes := EmptyString; FieldTransformers := [] |}.

(** ['0' + h] when [h < 10], else ['a' + h - 10], in [uint8] arithmetic. *)
Definition hexDigit (h : N) : ascii :=
  if (h <? 10)%N then ascii_of_N ((48 + h) mod 256)
  else ascii_of_N ((97 + h - 10) mod 256).

(** One iteration of the loop of [escapeJSON]. *)
Definition escapeByte (buf : Buffer) (b : ascii) : Buffer :=
  if Ascii.eqb b dq then Write buf (byte1 bs ++ byte1 dq)
  else if Ascii.eqb b bs then Write buf (byte1 bs ++ byte1 bs)
  else if Ascii.eqb b "008" then Write buf (byte1 bs ++ "b")
  else if Ascii.eqb b "012" then Write buf (byte1 bs ++ "f")
  else if Ascii.eqb b "010" then Write buf (byte1 bs ++ "n")
  else if Ascii.eqb b "013" then Write buf (byte1 bs ++ "r")
  else if Ascii.eqb b "009" then Write buf (byte1 bs ++ "t")
  else if (N_of_ascii b <? 32)%N then
    let buf := Write buf (byte1 bs ++ "u00") in
    let hex1 := (N_of_ascii b / 16)%N in
    let hex2 := (N_of_ascii b mod 16)%N in
    let buf := WriteByte buf (hexDigit hex1) in
    WriteByte buf (hexDigit hex2)
  else WriteByte buf b.

Fixpoint escapeJSON (buf : Buffer) (data : string) : Buffer :=
  match data with
  | EmptyString => buf
  | String b rest => escapeJSON (escapeByte buf b) rest
  end.

Definition localManualStringConversion (value : Value) : string :=
  match value with
  | VString v => v
  | VBytes v => v
  | VInt v => FormatInt v
  | VInt8 v => FormatInt v
  | VInt16 v => FormatInt v
  | VInt32 v => FormatInt v
  | VInt64 v => FormatInt v
  | VUint v => FormatInt v
  | VUint8 v => FormatInt v
  | VUint16 v => FormatInt v
  | VUint32 v => FormatInt v
  | VUint64 v => FormatInt v
  | VFloat32 v => FormatFloat v "g" (-1) 32
  | VFloat64 v => FormatFloat v "g" (-1) 64
  | VBool v => if v then "true" else "false"
  | VNil => "null"
  | _ => "<complex-type>"
  end.

Definition formatJSONValue (buf : Buffer) (v : Value) : Buffer :=
  let tempBuf := GetSmallByteSliceFromPool in
  match v with
  | VString val =>
      let buf := WriteByte buf dq in
      let buf := escapeJSON buf (S2b val) in
      WriteByte buf dq
  | VBytes val =>
      let buf := WriteByte buf dq in
      let buf := escapeJSON buf val in
      WriteByte buf dq
  | VInt val => Write buf (AppendInt (slice_to tempBuf 0) val)
  | VInt64 val => Write buf (AppendInt (slice_to tempBuf 0) val)
  | VFloat64 val => Write buf (AppendFloat (slice_to tempBuf 0) val "g" (-1) 64)
  | VBool val => if val then Write buf "true" else Write buf "false"
  | VNil => Write buf "null"
  | _ =>
      let tempStr := localManualStringConversion v in
      let buf := WriteByte buf dq in
      let buf := escapeJSON buf (S2b tempStr) in
      WriteByte buf dq
  end.

(** The loop [for k, v := range entry.Fields] of [formatManually]. *)
Fixpoint formatFieldsLoop (buf : Buffer) (fields : map Value) (first : bool)
    : Buffer :=
  match fields with
  | [] => buf
  | (k, v) :: rest =>
      let buf := if negb first then WriteByte buf "," else buf in
      let buf := WriteByte buf dq in
      let buf := Write buf (S2b k) in
      let buf := Write buf (byte1 dq ++ ":") in
      let buf := formatJSONValue buf v in
      formatFieldsLoop buf rest false
  end.

Definition formatManually (f : JSONFormatter) (buf : Buffer) (entry : LogEntry)
    : Buffer * option error :=
  let buf := WriteByte buf "{" in
  let buf := Write buf (byte1 dq ++ "timestamp" ++ byte1 dq ++ ":" ++ byte1 dq) in
  let buf := FormatTimestamp buf (Timestamp entry) (TimestampFormat f) in
  let buf := Write buf (byte1 dq ++ ",") in
  let buf := Write buf (byte1 dq ++ "level_name" ++ byte1 dq ++ ":" ++ byte1 dq) in
  let buf := Write buf (Level_Bytes (Level_ entry)) in
  let buf := Write buf (byte1 dq ++ ",") in
  let buf := Write buf (byte1 dq ++ "message" ++ byte1 dq ++ ":" ++ byte1 dq) in
  let buf := escapeJSON buf (Message entry) in
  let buf := Write buf (byte1 dq) in
  let buf :=
    if ShowPID f then
      let buf := Write buf ("," ++ byte1 dq ++ "pid" ++ byte1 dq ++ ":") in
      let pidBuf := GetSmallByteSliceFromPool in
      let pidBytes := AppendInt (slice_to pidBuf 0) (PID entry) in
      Write buf pidBytes
    else buf in
  let buf :=
    if ShowCaller f then
      match Caller entry with
      | Some caller =>
          let buf := Write buf ("," ++ byte1 dq ++ "caller" ++ byte1 dq ++ ":" ++ byte1 dq) in
          let buf := Write buf (S2b (File caller)) in
          let buf := WriteByte buf ":" in
          let lineBuf := GetSmallByteSliceFromPool in
          let lineBytes := AppendInt (slice_to lineBuf 0) (Line caller) in
          let buf := Write buf lineBytes in
          Write buf (byte1 dq)
      | None => buf
      end
    else buf in
  let buf :=
    if (0 <? Z.of_nat (List.length (Fields entry))) then
      let buf := Write buf ("," ++ byte1 dq ++ "fields" ++ byte1 dq ++ ":{") in
      let buf := formatFieldsLoop buf (Fields entry) true in
      WriteByte buf "}"
    else buf in
  let buf :=
    if ShowTraceInfo f then
      let buf :=
        if negb (String.eqb (TraceID entry) EmptyString) then
          let buf := Write buf ("," ++ byte1 dq ++ "trace_id" ++ byte1 dq ++ ":" ++ byte1 dq) in
          let buf := Write buf (S2b (TraceID entry)) in
          WriteByte buf dq
        else buf in
      let buf :=
        if negb (String.eqb (SpanID entry) EmptyString) then
          let buf := Write buf ("," ++ byte1 dq ++ "span_id" ++ byte1 dq ++ ":" ++ byte1 dq) in
          let buf := Write buf (S2b (SpanID entry)) in
          WriteByte buf dq
        else buf in
      if negb (String.eqb (UserID entry) EmptyString) then
        let buf := Write buf ("," ++ byte1 dq ++ "user_id" ++ byte1 dq ++ ":" ++ byte1 dq) in
        let buf := Write buf (S2b (UserID entry)) in
        WriteByte buf dq
      else buf
    else buf in
  let buf :=
    if EnableStackTrace f && (0 <? len (StackTrace entry)) then
      let buf := Write buf ("," ++ byte1 dq ++ "stack_trace" ++ byte1 dq ++ ":" ++ byte1 dq) in
      let buf := escapeJSON buf (StackTrace entry) in
      WriteByte buf dq
    else buf in
  let buf := WriteByte buf "}" in
  let buf := WriteByte buf "010" in
  (buf, None).

(** [indent()] at indentation level [n]: two spaces per level. *)
Fixpoint indent (buf : Buffer) (n : nat) : Buffer :=
  match n with
  | O => buf
  | S n' => indent (WriteString buf "  ") n'
  end.

(** [newline()] while [indentLevel] is [n]. *)
Definition newline (buf : Buffer) (n : nat) : Buffer :=
  indent (WriteByte buf "010") n.

(** The loop over [entry.Fields] of [formatManuallyWithIndent];
    [fieldNewline] writes at the level [fieldIndentLevel]. *)
Fixpoint formatFieldsIndentLoop (buf : Buffer) (fields : map Value)
    (first : bool) (fieldIndentLevel : nat) : Buffer :=
  match fields with
  | [] => buf
  | (k, v) :: rest =>
      let buf := if negb first then WriteByte buf "," else buf in
      let buf := newline buf fieldIndentLevel in
      let buf := WriteByte buf dq in
      let buf := Write buf (S2b k) in
      let buf := Write buf (byte1 dq ++ ": ") in
      let buf := formatJSONValue buf v in
      formatFieldsIndentLoop buf rest false fieldIndentLevel
  end.

Definition formatManuallyWithIndent (f : JSONFormatter) (buf : Buffer)
    (entry : LogEntry) : Buffer * option error :=
  let indentLevel := 0%nat in
  let buf := WriteByte buf "{" in
  let indentLevel := S indentLevel in
  let buf := newline buf indentLevel in
  let buf := Write buf (byte1 dq ++ "timestamp" ++ byte1 dq ++ ": " ++ byte1 dq) in
  let buf := FormatTimestamp buf (Timestamp entry) (TimestampFormat f) in
  let buf := Write buf (byte1 dq) in
  let buf := WriteByte buf "," in
  let buf := newline buf indentLevel in
  let buf := Write buf (byte1 dq ++ "level_name" ++ byte1 dq ++ ": " ++ byte1 dq) in
  let buf := Write buf (Level_Bytes (Level_ entry)) in
  let buf := Write buf (byte1 dq) in
  let buf := WriteByte buf "," in
  let buf := newline buf indentLevel in
  let buf := Write buf (byte1 dq ++ "message" ++ byte1 dq ++ ": " ++ byte1 dq) in
  let buf := escapeJSON buf (Message entry) in
  let buf := Write buf (byte1 dq) in
  let buf :=
    if ShowPID f && negb (PID entry =? 0) then
      let buf := WriteByte buf "," in
      let buf := newline buf indentLevel in
      let buf := Write buf (byte1 dq ++ "pid" ++ byte1 dq ++ ": ") in
      let pidBuf := GetSmallByteSliceFromPool in
      let pidBytes := AppendInt (slice_to pidBuf 0) (PID entry) in
      Write buf pidBytes
    else buf in
  let buf :=
    if ShowCaller f then
      match Caller entry with
      | Some caller =>
          let buf := WriteByte buf "," in
          let buf := newline buf indentLevel in
          let buf := Write buf (byte1 dq ++ "caller" ++ byte1 dq ++ ": " ++ byte1 dq) in
          let buf := Write buf (S2b (File caller)) in
          let buf := WriteByte buf ":" in
          let lineBuf := GetSmallByteSliceFromPool in
          let lineBytes := AppendInt (slice_to lineBuf 0) (Line caller) in
          let buf := Write buf lineBytes in
          Write buf (byte1 dq)
      | None => buf
      end
    else buf in
  let buf :=
    if (0 <? Z.of_nat (List.length (Fields entry))) then
      let buf := WriteByte buf "," in
      let buf := newline buf indentLevel in
      let buf := Write buf (byte1 dq ++ "fields" ++ byte1 dq ++ ": {") in
      let fieldIndentLevel := S indentLevel in
      let buf := formatFieldsIndentLoop buf (Fields entry) true fieldIndentLevel in
      let buf := newline buf fieldIndentLevel in
      WriteByte buf "}"
    else buf in
  let buf :=
    if ShowTraceInfo f then
      let buf :=
        if negb (String.eqb (TraceID entry) EmptyString) then
          let buf := WriteByte buf "," in
          let buf := newline buf indentLevel in
          let buf := Write buf (byte1 dq ++ "trace_id" ++ byte1 dq ++ ": " ++ byte1 dq) in
          let buf := Write buf (S2b (TraceID entry)) in
          WriteByte buf dq
        else buf in
      let buf :=
        if negb (String.eqb (SpanID entry) EmptyString) then
          let buf := WriteByte buf "," in
          let buf := newline buf indentLevel in
          let buf := Write buf (byte1 dq ++ "span_id" ++ byte1 dq ++ ": " ++ byte1 dq) in
          let buf := Write buf (S2b (SpanID entry)) in
          WriteByte buf dq
        else buf in
      if negb (String.eqb (UserID entry) EmptyString) then
        let buf := WriteByte buf "," in
        let buf := newline buf indentLevel in
        let buf := Write buf (byte1 dq ++ "user_id" ++ byte1 dq ++ ": " ++ byte1 dq) in
        let buf := Write buf (S2b (UserID entry)) in
        WriteByte buf dq
      else buf
    else buf in
  let buf :=
    if EnableStackTrace f && (0 <? len (StackTrace entry)) then
      let buf := WriteByte buf "," in
      let buf := newline buf indentLevel in
      let buf := Write buf (byte1 dq ++ "stack_trace" ++ byte1 dq ++ ": " ++ byte1 dq) in
      let buf := escapeJSON buf (StackTrace entry) in
      WriteByte buf dq
    else buf in
  let indentLevel := pred indentLevel in
  let buf := newline buf indentLevel in
  let buf := WriteByte buf "}" in
  let buf := WriteByte buf "010" in
  (buf, None).

Definition formatWithStandardEncoder (f : JSONFormatter) (buf : Buffer)
    (entry : LogEntry) : Buffer * option error :=
  if PrettyPrint f then formatManuallyWithIndent f buf entry
  else formatManually f buf entry.

Definition Format (f : JSONFormatter) (buf : Buffer) (entry : LogEntry)
    : Buffer * option error :=
  if PrettyPrint f then formatWithStandardEncoder f buf entry
  else formatManually f buf entry.

Fixpoint isSensitiveLoop (sensitiveFields : list string) (field : string)
    : bool :=
  match sensitiveFields with
  | [] => false
  | sensitiveField :: rest =>
      if String.eqb field sensitiveField then true
      else isSensitiveLoop rest field
  end.

Definition isSensitive (f : JSONFormatter) (field : string) : bool :=
  isSensitiveLoop (SensitiveFields f) field.

(** [processFields] is reached only from [prepareOutputEntry], which no
    function of the package calls. *)
Definition processFields (f : JSONFormatter) (fields : map Value) : map Value :=
  fold_left
    (fun processed kv =>
       let k := fst kv in
       let v := snd kv in
       let key := match lookup (FieldKeyMap f) k with
                  | Some mappedKey => mappedKey
                  | None => k
                  end in
       match lookup (FieldTransformers f) k with
       | Some transformer => store processed key (transformer v)
       | None =>
           if MaskSensitiveData f && isSensitive f k
           then store processed key (VBytes (MaskStringBytes f))
           else store processed key v
       end)
    fields [].

End json.

(** *** csv.go *)

Module csv.
Import Go core util.

Record CSVFormatter := {
  IncludeHeader : bool;
  FieldOrder : list string;
  TimestampFormat : string
}.

Definition NewCSVFormatter : CSVFormatter :=
  {| IncludeHeader := false; FieldOrder := []; TimestampFormat := EmptyString |}.

Definition formatField (f : CSVFormatter) (valBuf : Buffer) (field : string)
    (entry : LogEntry) : Buffer :=
  if String.eqb field "timestamp" then
    Write valBuf (AppendFormat (Timestamp entry) EmptyString (TimestampFormat f))
  else if String.eqb field "level" then
    Write valBuf (Level_Bytes (Level_ entry))
  else if String.eqb field "message" then
    Write valBuf (Message entry)
  else if String.eqb field "pid" then
    let pidBuf := GetSmallByteSliceFromPool in
    let pidBuf := AppendInt pidBuf (PID entry) in
    Write valBuf pidBuf
  else if String.eqb field "goroutine_id" then
    WriteString valBuf (GoroutineID entry)
  else if String.eqb field "trace_id" then
    WriteString valBuf (TraceID entry)
  else if String.eqb field "file" then
    match Caller entry with
    | Some caller => WriteString valBuf (File caller)
    | None => valBuf
    end
  else if String.eqb field "line" then
    match Caller entry with
    | Some caller =>
        let lineBuf := GetSmallByteSliceFromPool in
        let lineBuf := AppendInt lineBuf (Line caller) in
        Write valBuf lineBuf
    | None => valBuf
    end
  else if String.eqb field "error" then
    match Error_ entry with
    | Some err =>
        match err with
        | appenderError _ appended => Write valBuf appended
        | _ => WriteString valBuf (Error err)
        end
    | None => valBuf
    end
  else
    match lookup (Fields entry) field with
    | Some val => FormatValue valBuf val 0
    | None => valBuf
    end.

(** The loop [for _, field := range f.FieldOrder] of [Format]. *)
Fixpoint formatLoop (f : CSVFormatter) (entry : LogEntry)
    (fieldOrder : list string) (valBuf : Buffer) (record : list string)
    : list string :=
  match fieldOrder with
  | [] => record
  | field :: rest =>
      let valBuf := Reset valBuf in
      let valBuf := formatField f valBuf field entry in
      let record := (record ++ [valBuf])%list in
      formatLoop f entry rest valBuf record
  end.

Definition Format (f : CSVFormatter) (buf : Buffer) (entry : LogEntry)
    : Buffer * option error :=
  let writer := encoding_csv.NewWriter buf in
  let record := GetStringSliceFromPool in
  let valBuf := GetBufferFromPool in
  let record := formatLoop f entry (FieldOrder f) valBuf record in
  match encoding_csv.Write writer record with
  | (writer, Some err) => (encoding_csv.w writer, Some err)
  | (writer, None) =>
      let writer := encoding_csv.Flush writer in
      (encoding_csv.w writer, encoding_csv.Error writer)
  end.

End csv.

End formatter.

(** ** Package [sampler] *)

Module sampler.
Import Go core.

(** One call [Log(ctx, level, msg, fields)] received by a [Sampler]. *)
Definition LogCall : Type := Level * string * map string.

(** The value [x] as an [int64]: two's complement wrap-around. *)
Definition int64 (x : Z) : Z := (x + 2 ^ 63) mod 2 ^ 64 - 2 ^ 63.

(** [atomic.AddInt64(addr, delta)]: the new value. *)
Definition AddInt64 (addr delta : Z) : Z := int64 (addr + delta).

(** [processor] is the wrapped [Sampler], taken through the calls it has
    received, oldest first.  [rate] is an [int], so [int64(ls.rate)] is
    [rate] itself. *)
Record LogSampler := {
  processor : list LogCall;
  rate : Z;
  counter : Z
}.

Definition NewSampler (processor : list LogCall) (rate : Z) : LogSampler :=
  {| processor := processor; rate := rate; counter := 0 |}.

Definition ShouldLog (ls : LogSampler) : bool * LogSampler :=
  if rate ls <=? 1 then (true, ls)
  else
    let counter := AddInt64 (counter ls) 1 in
    (Z.rem counter (rate ls) =? 0,
     {| processor := processor ls; rate := rate ls; counter := counter |}).

Definition Log (ls : LogSampler) (level : Level) (msg : string)
    (fields : map string) : LogSampler :=
  let '(ok, ls) := ShouldLog ls in
  if ok then
    {| processor := (processor ls ++ [(level, msg, fields)])%list;
       rate := rate ls; counter := counter ls |}
  else ls.

(** The sampler after [n] calls of [ShouldLog], and the result of call
    number [k] (counting from 1) on a sampler made by [NewSampler]. *)
Definition afterCalls (ls : LogSampler) (n : N) : LogSampler :=
  N.iter n (fun s => snd (ShouldLog s)) ls.

Definition kthCall (r : Z) (k : N) : bool :=
  fst (ShouldLog (afterCalls (NewSampler [] r) (N.pred k))).

End sampler.

(** ** Package [hook] *)

Module hook.
Import Go core.

Definition Millisecond : Z := 1000000.
Definition Second : Z := 1000000000.

(** [time.Duration] arithmetic is [int64] arithmetic. *)
Definition int64 (x : Z) : Z := (x + 2 ^ 63) mod 2 ^ 64 - 2 ^ 63.

Record Client := { Timeout : Z }.

Record ExternalHook := {
  endpoint : string;
  client : Client;
  maxRetries : Z;
  timeout : Z
}.

Definition NewExternalHook (endpoint : string) (maxRetries : Z) (timeout : Z)
    : option ExternalHook * option error :=
  if String.eqb endpoint EmptyString then
    (None, Some (errorString "endpoint cannot be empty"))
  else
    let maxRetries := if maxRetries <=? 0 then 3 else maxRetries in
    let timeout := if timeout <=? 0 then 10 * Second else timeout in
    (Some {| endpoint := endpoint;
             client := {| Timeout := timeout |};
             maxRetries := maxRetries;
             timeout := timeout |},
     None).

(** What the network does with attempt number [attempt] (from 0):
    [http.NewRequestWithContext] fails, or [client.Do] fails, or a response
    with a status code arrives. *)
Inductive Outcome : Type :=
| RequestError (err : error)
| DoError (err : error)
| Response (StatusCode : Z).

(** The effects of [Fire] that can be observed from outside. *)
Inductive Event : Type :=
| Post (attempt : Z)
| Sleep (d : Z).

(** [time.Duration(1<<uint(attempt)) * 100 * time.Millisecond]. *)
Definition backoffDuration (attempt : Z) : Z :=
  int64 (int64 (int64 (Z.shiftl 1 attempt) * 100) * Millisecond).

Definition backoff (h : ExternalHook) (attempt : Z) (trace : list Event)
    : list Event :=
  if attempt <? maxRetries h - 1
  then (trace ++ [Sleep (backoffDuration attempt)])%list
  else trace.

(** The loop of [Fire]; [fuel] is the number of iterations left before
    [attempt] reaches [h.maxRetries]. *)
Fixpoint fireLoop (h : ExternalHook) (net : Z -> Outcome) (fuel : nat)
    (attempt : Z) (lastErr : option error) (trace : list Event)
    : option error * list Event :=
  match fuel with
  | O =>
      let pre := "failed to send log after " ++ FormatInt (maxRetries h)
                 ++ " attempts: " in
      match lastErr with
      | Some e => (Some (Errorf_w pre e), trace)
      | None => (Some (errorString (pre ++ "%!w(<nil>)")), trace)
      end
  | S fuel' =>
      match net attempt with
      | RequestError err =>
          (Some (Errorf_w "failed to create HTTP request: " err), trace)
      | DoError err =>
          let trace := (trace ++ [Post attempt])%list in
          let lastErr :=
            Errorf_w ("attempt " ++ FormatInt (attempt + 1)
                      ++ ": failed to send request: ") err in
          let trace := backoff h attempt trace in
          fireLoop h net fuel' (attempt + 1) (Some lastErr) trace
      | Response StatusCode =>
          let trace := (trace ++ [Post attempt])%list in
          if (200 <=? StatusCode) && (StatusCode <? 300) then (None, trace)
          else
            let lastErr :=
              errorString ("attempt " ++ FormatInt (attempt + 1)
                           ++ ": service returned status "
                           ++ FormatInt StatusCode) in
            let trace := backoff h attempt trace in
            fireLoop h net fuel' (attempt + 1) (Some lastErr) trace
      end
  end.

(** [marshal] is the result of [json.Marshal(entry)]: the payload or the
    error. *)
Definition Fire (h : ExternalHook) (marshal : string + error)
    (net : Z -> Outcome) : option error * list Event :=
  match marshal with
  | inr err => (Some (Errorf_w "failed to marshal log entry: " err), [])
  | inl payload => fireLoop h net (Z.to_nat (maxRetries h)) 0 None []
  end.

Definition Close (h : ExternalHook) : option error := None.

Definition isPost (e : Event) : bool :=
  match e with Post _ => true | Sleep _ => false end.

(** The number of HTTP POST attempts in a trace. *)
Definition posts (trace : list Event) : Z :=
  Z.of_nat (List.length (filter isPost trace)).

End hook.

(** ** Package [logger] *)

Module logger.
Import Go core.

(** Modelled from the spec: the package [logger] (Level Gate, Entry Pool,
    Dispatcher) is not among the sources.  The Level Gate is
    [enabled(severity)], a comparison with the atomically stored minimum;
    [emit] is gate check, then acquire, populate, and either format, pass to
    the Writer and release inline, or enqueue a task for the Worker Pool.
    [format(buffer, Record) -> error] may fail and [write(bytes) -> (n,
    error)] may return an error: either is routed to the error handler, and
    a Record whose formatting failed is not passed to the Writer.  What the
    configured Formatter and Writer return for a task is theirs to decide:
    [formatter] and [sink] give it. *)
Inductive Phase : Type := Open | Draining | Closed.

Record Task := {
  task_id : nat;
  task_level : Level;
  task_message : string
}.

Record Logger := {
  threshold : Level;
  asyncMode : bool;
  capacity : nat;
  phase : Phase;
  queue : list Task;
  formatter : Task -> option error;
  sink : Task -> option error;
  writerCalls : list Task;
  handled : list error;
  acquired : nat;
  released : nat
}.

(** What an [emit] call reports. *)
Inductive Signal : Type :=
| Filtered | Written | Enqueued | QueueFull | LoggerClosed.

Definition New (threshold : Level) (asyncMode : bool) (capacity : nat)
    (formatter sink : Task -> option error) : Logger :=
  {| threshold := threshold; asyncMode := asyncMode; capacity := capacity;
     phase := Open; queue := []; formatter := formatter; sink := sink;
     writerCalls := []; handled := []; acquired := 0; released := 0 |}.

Definition enabled (l : Logger) (severity : Level) : bool :=
  Level_rank (threshold l) <=? Level_rank severity.

(** [acquire() -> Record]: one more Record is out of the pool. *)
Definition acquire (l : Logger) : Logger :=
  {| threshold := threshold l; asyncMode := asyncMode l;
     capacity := capacity l; phase := phase l; queue := queue l;
     formatter := formatter l; sink := sink l;
     writerCalls := writerCalls l; handled := handled l;
     acquired := S (acquired l); released := released l |}.

Definition release (l : Logger) : Logger :=
  {| threshold := threshold l; asyncMode := asyncMode l;
     capacity := capacity l; phase := phase l; queue := queue l;
     formatter := formatter l; sink := sink l;
     writerCalls := writerCalls l; handled := handled l;
     acquired := acquired l; released := S (released l) |}.

(** Route an error to the configured error handler. *)
Definition handle (l : Logger) (err : error) : Logger :=
  {| threshold := threshold l; asyncMode := asyncMode l;
     capacity := capacity l; phase := phase l; queue := queue l;
     formatter := formatter l; sink := sink l;
     writerCalls := writerCalls l; handled := (handled l ++ [err])%list;
     acquired := acquired l; released := released l |}.

(** Pass the bytes formatted for the task to the Writer. *)
Definition passToWriter (l : Logger) (t : Task) : Logger :=
  {| threshold := threshold l; asyncMode := asyncMode l;
     capacity := capacity l; phase := phase l; queue := queue l;
     formatter := formatter l; sink := sink l;
     writerCalls := (writerCalls l ++ [t])%list; handled := handled l;
     acquired := acquired l; released := released l |}.

(** Format the task and pass the bytes to the Writer.  A failure of the
    Formatter goes to the error handler and the Writer is not called; so
    does an error the Writer returns. *)
Definition write (l : Logger) (t : Task) : Logger :=
  match formatter l t with
  | Some err => handle l err
  | None =>
      let l := passToWriter l t in
      match sink l t with
      | Some err => handle l err
      | None => l
      end
  end.

Definition enqueue (l : Logger) (t : Task) : Logger :=
  {| threshold := threshold l; asyncMode := asyncMode l;
     capacity := capacity l; phase := phase l;
     queue := (queue l ++ [t])%list;
     formatter := formatter l; sink := sink l;
     writerCalls := writerCalls l; handled := handled l;
     acquired := acquired l; released := released l |}.

Definition emit (l : Logger) (severity : Level) (message : string)
    : Logger * Signal :=
  if negb (enabled l severity) then (l, Filtered)
  else
    match phase l with
    | Open =>
        let t := {| task_id := acquired l; task_level := severity;
                    task_message := message |} in
        let l := acquire l in
        if asyncMode l then
          if (List.length (queue l) <? capacity l)%nat
          then (enqueue l t, Enqueued)
          else (release l, QueueFull)
        else (release (write l t), Written)
    | _ => (l, LoggerClosed)
    end.

End logger.

(** ** Package [writer] *)

Module writer.
Import Go.

(** A call that reaches an [*os.File]. *)
Inductive FileCall : Type :=
| FileWrite (p : string)
| FileClose.

(** An [*os.File] as the writer sees it: the calls that have reached it, in
    order, and what it answers.  The answer to a call (the count and the
    error of a [Write], the error of a [Close]) is the operating system's:
    [answer] gives it from the calls made before and the call at hand, so a
    write may be short or fail, and a close may fail. *)
Record File := {
  reached : list FileCall;
  answer : list FileCall -> FileCall -> Z * option error
}.

Definition File_Write (f : File) (p : string) : File * Z * option error :=
  let '(n, err) := answer f (reached f) (FileWrite p) in
  ({| reached := (reached f ++ [FileWrite p])%list; answer := answer f |},
   n, err).

Definition File_Close (f : File) : File * option error :=
  let '(_, err) := answer f (reached f) FileClose in
  ({| reached := (reached f ++ [FileClose])%list; answer := answer f |}, err).

Record RotatingFileWriter := {
  file : File;
  closed : bool
}.

(** [opened] is the result of [os.OpenFile(filename, ...)]. *)
Definition NewRotatingFileWriter (filename : string) (opened : File + error)
    : option RotatingFileWriter * option error :=
  match opened with
  | inr err => (None, Some err)
  | inl f => (Some {| file := f; closed := false |}, None)
  end.

Definition Write (w : RotatingFileWriter) (p : string)
    : RotatingFileWriter * Z * option error :=
  let '(f, n, err) := File_Write (file w) p in
  ({| file := f; closed := closed w |}, n, err).

Definition Close (w : RotatingFileWriter) : RotatingFileWriter * option error :=
  if closed w then (w, None)
  else
    let '(f, err) := File_Close (file w) in
    ({| file := f; closed := true |}, err).

(** Calls on a writer, and what each returns. *)
Inductive Call : Type :=
| CallWrite (p : string)
| CallClose.

Definition call (w : RotatingFileWriter) (c : Call)
    : RotatingFileWriter * (Z * option error) :=
  match c with
  | CallWrite p => let '(w', n, err) := Write w p in (w', (n, err))
  | CallClose => let '(w', err) := Close w in (w', (0, err))
  end.

Fixpoint calls (w : RotatingFileWriter) (cs : list Call)
    : RotatingFileWriter * list (Z * option error) :=
  match cs with
  | [] => (w, [])
  | c :: rest =>
      let '(w', r) := call w c in
      let '(w'', rs) := calls w' rest in
      (w'', r :: rs)
  end.

End writer.

(** ** Package [metric] *)

Module metric.
Import Go core.

(** The value [x] as an [int64]. *)
Definition int64 (x : Z) : Z := (x + 2 ^ 63) mod 2 ^ 64 - 2 ^ 63.

Record DefaultMetricsCollector := {
  counters : map Z;
  histograms : map (list float);
  gauges : map float
}.

Definition NewDefaultMetricsCollector : DefaultMetricsCollector :=
  {| counters := []; histograms := []; gauges := [] |}.

(** Modelled from the spec: [core.Level.String] is not among the sources;
    it gives the label of the level, as [Level.Bytes] does. *)
Definition Level_String (level : Level) : string := Level_Bytes level.

(** [m[k]] for a map of numbers: zero when [k] is absent. *)
Definition get (m : map Z) (k : string) : Z :=
  match lookup m k with
  | Some v => v
  | None => 0
  end.

Definition IncrementCounter (d : DefaultMetricsCollector) (level : Level)
    (tags : map string) : DefaultMetricsCollector :=
  if (Level_rank level <? Level_rank TRACE)
     || (Level_rank PANIC <? Level_rank level)
  then d
  else
    let key := "log." ++ ToLower (Level_String level) in
    {| counters := store (counters d) key (int64 (get (counters d) key + 1));
       histograms := histograms d;
       gauges := gauges d |}.

Definition RecordHistogram (d : DefaultMetricsCollector) (metric : string)
    (value : float) (tags : map string) : DefaultMetricsCollector :=
  let old := match lookup (histograms d) metric with
             | Some values => values
             | None => []
             end in
  {| counters := counters d;
     histograms := store (histograms d) metric (old ++ [value])%list;
     gauges := gauges d |}.

Definition RecordGauge (d : DefaultMetricsCollector) (metric : string)
    (value : float) (tags : map string) : DefaultMetricsCollector :=
  {| counters := counters d;
     histograms := histograms d;
     gauges := store (gauges d) metric value |}.

Definition GetCounter (d : DefaultMetricsCollector) (metric : string) : Z :=
  get (counters d) metric.

(** What a caller records. *)
Inductive Record_ : Type :=
| Counter (level : Level) (tags : map string)
| Histogram (metric : string) (value : float) (tags : map string)
| Gauge (metric : string) (value : float) (tags : map string).

Definition record (d : DefaultMetricsCollector) (r : Record_)
    : DefaultMetricsCollector :=
  match r with
  | Counter level tags => IncrementCounter d level tags
  | Histogram metric value tags => RecordHistogram d metric value tags
  | Gauge metric value tags => RecordGauge d metric value tags
  end.

End metric.

(** ** Package [example] *)

Module example.
Import Go.

Definition MaskEmail (email : string) : string :=
  let idx := Index email "@" in
  if negb (idx =? -1) then
    let localPart := slice_to email idx in
    if 2 <? len localPart then
      slice_to localPart 2 ++ "***@" ++ slice_from email (idx + 1)
    else
      "***@" ++ slice_from email (idx + 1)
  else email.

End example.

(** ** Specification-side definitions *)

Module spec.
Import Go core.

(** The byte [c] occurs in [s]. *)
Definition hasByte (c : ascii) (s : string) : Prop :=
  exists a b, s = a ++ String c b.

(** [pre] is the first [n] bytes of [s]. *)
Definition firstBytes (n : Z) (s pre : string) : Prop :=
  len pre = n /\ exists rest, s = pre ++ rest.

(** A value whose dynamic type is an error that implements
    [core.ErrorAppender]. *)
Definition implementsErrorAppender (value : Value) : bool :=
  match value with
  | VError (appenderError _ _) => true
  | _ => false
  end.

(** The rendered byte content of a value, as [util.FormatValue] chooses it:
    the bytes of a string or byte slice, the decimal digits of an integer,
    a float with two decimals, [true] or [false], the text of an error (for
    an error that implements [core.ErrorAppender], what it appends), and the
    fallback text for anything else. *)
Definition renderedContent (value : Value) : string :=
  match value with
  | VString v | VBytes v => v
  | VInt v | VInt8 v | VInt16 v | VInt32 v | VInt64 v => FormatInt v
  | VUint v | VUint8 v | VUint16 v | VUint32 v | VUint64 v => FormatInt v
  | VFloat32 v => FormatFloat v "f" 2 32
  | VFloat64 v => FormatFloat v "f" 2 64
  | VBool true => "true"
  | VBool false => "false"
  | VNil => "null"
  | VError (appenderError _ appended) => appended
  | VError e => Error e
  | VOther => "<complex-type>"
  end.

(** What [util.FormatValue] is said to write after [buf] for [value] under
    the width [maxWidth]. *)
Definition FormatValue_spec (buf : Buffer) (value : Value) (maxWidth : Z)
    (out : Buffer) : Prop :=
  let content := renderedContent value in
  (maxWidth < len content ->
     exists pre, firstBytes maxWidth content pre /\ out = buf ++ pre ++ "...")
  /\
  (len content <= maxWidth ->
     (hasByte " " content -> out = buf ++ byte1 dq ++ content ++ byte1 dq) /\
     (~ hasByte " " content -> out = buf ++ content)).

(** The value of a hexadecimal digit. *)
Definition hexValue (c : ascii) : option N :=
  let n := N_of_ascii c in
  if ((48 <=? n) && (n <=? 57))%N then Some (n - 48)%N
  else if ((97 <=? n) && (n <=? 102))%N then Some (n - 87)%N
  else if ((65 <=? n) && (n <=? 70))%N then Some (n - 55)%N
  else None.

(** Reading the inside of a JSON string back into bytes: the two-byte
    escapes, the escapes of the form [u00XY], and any other byte from 32 on
    but the quote.  [None] when the bytes are not the inside of a JSON
    string. *)
Fixpoint unescapeJSON (s : string) : option string :=
  match s with
  | EmptyString => Some EmptyString
  | String c rest =>
      if Ascii.eqb c bs then
        match rest with
        | EmptyString => None
        | String e rest' =>
            let one (b : ascii) := option_map (String b) (unescapeJSON rest') in
            if Ascii.eqb e dq then one dq
            else if Ascii.eqb e bs then one bs
            else if Ascii.eqb e "/" then one "/"%char
            else if Ascii.eqb e "b" then one "008"%char
            else if Ascii.eqb e "f" then one "012"%char
            else if Ascii.eqb e "n" then one "010"%char
            else if Ascii.eqb e "r" then one "013"%char
            else if Ascii.eqb e "t" then one "009"%char
            else if Ascii.eqb e "u" then
              match rest' with
              | String z1 (String z2 (String h1 (String h2 rest''))) =>
                  if Ascii.eqb z1 "0" && Ascii.eqb z2 "0" then
                    match hexValue h1, hexValue h2 with
                    | Some x, Some y =>
                        option_map (String (ascii_of_N (16 * x + y)))
                          (unescapeJSON rest'')
                    | _, _ => None
                    end
                  else None
              | _ => None
              end
            else None
        end
      else if Ascii.eqb c dq then None
      else if (N_of_ascii c <? 32)%N then None
      else option_map (String c) (unescapeJSON rest)
  end.

(** The built-in columns of the CSV formatter for an entry: name and
    rendered value. *)
Definition builtinColumns (f : formatter.csv.CSVFormatter) (entry : LogEntry)
    : list (string * string) :=
  [ ("timestamp",
     Time_Format (Timestamp entry) (formatter.csv.TimestampFormat f));
    ("level", Level_Bytes (Level_ entry));
    ("message", Message entry);
    ("pid", FormatInt (PID entry));
    ("goroutine_id", GoroutineID entry);
    ("trace_id", TraceID entry);
    ("file", match Caller entry with
             | Some caller => File caller
             | None => EmptyString
             end);
    ("line", match Caller entry with
             | Some caller => FormatInt (Line caller)
             | None => EmptyString
             end);
    ("error", match Error_ entry with
              | Some (appenderError _ appended) => appended
              | Some err => Error err
              | None => EmptyString
              end) ].

(** The byte [c] occurs in [s], as a test. *)
Fixpoint holdsByte (c : ascii) (s : string) : bool :=
  match s with
  | EmptyString => false
  | String x rest => Ascii.eqb x c || holdsByte c rest
  end.

(** The rendered value of an entry field: its rendered content, between
    double quotes when the content holds a space byte.  What an error
    implementing [core.ErrorAppender] appends is taken as it is. *)
Definition renderedValue (value : Value) : string :=
  let content := renderedContent value in
  if implementsErrorAppender value then content
  else if holdsByte " " content then byte1 dq ++ content ++ byte1 dq
  else content.

(** The column of the CSV record for the name [name]: the built-in column of
    that name, otherwise the rendered value of the entry field of that name,
    otherwise empty. *)
Definition column (f : formatter.csv.CSVFormatter) (entry : LogEntry)
    (name : string) : string :=
  match lookup (builtinColumns f entry) name with
  | Some rendered => rendered
  | None =>
      match lookup (Fields entry) name with
      | Some val => renderedValue val
      | None => EmptyString
      end
  end.

(** *** CSV records, with the comma as separator and the line feed as line
    end *)

Definition LF : ascii := "010"%char.
Definition CR : ascii := "013"%char.

Definition bytesOf (l : list N) : string :=
  fold_right (fun n s => String (ascii_of_N n) s) EmptyString l.

(** The UTF-8 encodings of the space runes: tab, line feed, vertical tab,
    form feed, carriage return, space, U+0085, U+00A0, U+1680, U+2000 to
    U+200A, U+2028, U+2029, U+202F, U+205F and U+3000. *)
Definition spaceRunes : list string :=
  List.map bytesOf
    [ [9]; [10]; [11]; [12]; [13]; [32]; [194; 133]; [194; 160];
      [225; 154; 128];
      [226; 128; 128]; [226; 128; 129]; [226; 128; 130]; [226; 128; 131];
      [226; 128; 132]; [226; 128; 133]; [226; 128; 134]; [226; 128; 135];
      [226; 128; 136]; [226; 128; 137]; [226; 128; 138];
      [226; 128; 168]; [226; 128; 169]; [226; 128; 175];
      [226; 129; 159]; [227; 128; 128] ]%N.

Fixpoint startsWith (p s : string) : bool :=
  match p, s with
  | EmptyString, _ => true
  | String _ _, EmptyString => false
  | String a p', String b s' => Ascii.eqb a b && startsWith p' s'
  end.

(** A column must stand between quotes in a record when it holds a comma,
    a quote, a carriage return or a line feed, when it begins with a space
    rune, or when it is a backslash followed by a full stop. *)
Definition mustQuote (column : string) : bool :=
  String.eqb column (String bs ".")
  || holdsByte "," column || holdsByte dq column
  || holdsByte CR column || holdsByte LF column
  || existsb (fun p => startsWith p column) spaceRunes.

(** A column with each quote in it written twice. *)
Fixpoint doubled (column : string) : string :=
  match column with
  | EmptyString => EmptyString
  | String c rest =>
      if Ascii.eqb c dq then String dq (String dq (doubled rest))
      else String c (doubled rest)
  end.

Definition csvColumn (column : string) : string :=
  if mustQuote column then String dq (doubled column ++ byte1 dq)
  else column.

(** One CSV record: its columns with commas in between, then the line
    feed. *)
Definition csvRecord (record : list string) : string :=
  String.concat "," (List.map csvColumn record) ++ byte1 LF.

(** Reading CSV back.  The reader is at the start of a record, at the start
    of a column after a comma, inside a column without quotes, inside a
    column between quotes, or just after a quote met inside such a
    column. *)
Inductive Reading : Type :=
| RecordStart | ColumnStart | Unquoted | Quoted | QuoteSeen.

(** [column] is what has been read of the column at hand, [record] the
    columns of the record at hand, [records] the records read.  A column
    ends at a comma, a record at a line feed; between quotes every byte
    stands for itself but the quote, which is written twice; a quote or a
    carriage return inside a column without quotes, anything but a comma or
    a line feed after a closing quote, and an end of input inside a record
    are refused. *)
Fixpoint readFrom (s : string) (st : Reading) (column : string)
    (record : list string) (records : list (list string))
    : option (list (list string)) :=
  match s with
  | EmptyString =>
      match st with
      | RecordStart => Some records
      | _ => None
      end
  | String c rest =>
      match st with
      | RecordStart | ColumnStart =>
          if Ascii.eqb c dq then readFrom rest Quoted EmptyString record records
          else if Ascii.eqb c "," then
            readFrom rest ColumnStart EmptyString (record ++ [column])%list
              records
          else if Ascii.eqb c LF then
            readFrom rest RecordStart EmptyString []
              (records ++ [(record ++ [column])%list])%list
          else if Ascii.eqb c CR then None
          else readFrom rest Unquoted (byte1 c) record records
      | Unquoted =>
          if Ascii.eqb c "," then
            readFrom rest ColumnStart EmptyString (record ++ [column])%list
              records
          else if Ascii.eqb c LF then
            readFrom rest RecordStart EmptyString []
              (records ++ [(record ++ [column])%list])%list
          else if Ascii.eqb c dq || Ascii.eqb c CR then None
          else readFrom rest Unquoted (column ++ byte1 c) record records
      | Quoted =>
          if Ascii.eqb c dq then readFrom rest QuoteSeen column record records
          else readFrom rest Quoted (column ++ byte1 c) record records
      | QuoteSeen =>
          if Ascii.eqb c dq
          then readFrom rest Quoted (column ++ byte1 dq) record records
          else if Ascii.eqb c "," then
            readFrom rest ColumnStart EmptyString (record ++ [column])%list
              records
          else if Ascii.eqb c LF then
            readFrom rest RecordStart EmptyString []
              (records ++ [(record ++ [column])%list])%list
          else None
      end
  end.

(** What the reader does at the comma or the line feed [d] that ends the
    column [column]. *)
Definition afterColumn (d : ascii) (rest column : string)
    (record : list string) (records : list (list string))
    : option (list (list string)) :=
  if Ascii.eqb d ","
  then readFrom rest ColumnStart "" (record ++ [column])%list records
  else readFrom rest RecordStart "" []
         (records ++ [(record ++ [column])%list])%list.

(** The records of a CSV text, each with its columns; [None] when the text
    is not CSV. *)
Definition readCSV (s : string) : option (list (list string)) :=
  readFrom s RecordStart EmptyString [] [].

(** An attempt of [Fire] succeeds when a response arrives whose status is
    in [200, 300). *)
Definition succeeds (o : hook.Outcome) : Prop :=
  exists StatusCode,
    o = hook.Response StatusCode /\ 200 <= StatusCode < 300.

(** The failure of attempt number [attempt] (from 0) whose outcome is [o]:
    the error [Fire] keeps for it.  There is none when the attempt succeeds
    or when the request could not even be made. *)
Definition failure (attempt : Z) (o : hook.Outcome) : option error :=
  match o with
  | hook.RequestError _ => None
  | hook.DoError err =>
      Some (Errorf_w ("attempt " ++ FormatInt (attempt + 1)
                      ++ ": failed to send request: ") err)
  | hook.Response StatusCode =>
      if (200 <=? StatusCode) && (StatusCode <? 300) then None
      else Some (errorString ("attempt " ++ FormatInt (attempt + 1)
                              ++ ": service returned status "
                              ++ FormatInt StatusCode))
  end.

(** The error of [Fire] when every attempt has failed, [e] being the
    failure of the last one. *)
Definition exhausted (h : hook.ExternalHook) (e : error) : error :=
  Errorf_w ("failed to send log after " ++ FormatInt (hook.maxRetries h)
            ++ " attempts: ") e.

(** Every byte of [s] passes the test [p]. *)
Fixpoint allBytes (p : ascii -> bool) (s : string) : bool :=
  match s with
  | EmptyString => true
  | String c rest => p c && allBytes p rest
  end.

(** A byte that may stand for itself inside a JSON string: not a control
    byte, not the quote, not the backslash. *)
Definition plainByte (c : ascii) : bool :=
  (32 <=? N_of_ascii c)%N && negb (Ascii.eqb c dq) && negb (Ascii.eqb c bs).

(** A byte that is not a control byte. *)
Definition printable (c : ascii) : bool := (32 <=? N_of_ascii c)%N.

(** The scalar a JSON reader sees. *)
Inductive JSONScalar : Type :=
| JString (s : string)
| JNumber (z : Z)
| JBool (b : bool)
| JNull.

(** The scalar that stands for a value of one of the types
    [formatJSONValue] has a case for, the floats apart: a string or a byte
    slice is a JSON string, an [int] or [int64] a number. *)
Definition jsonView (v : Value) : option JSONScalar :=
  match v with
  | VString s | VBytes s => Some (JString s)
  | VInt z | VInt64 z => Some (JNumber z)
  | VBool b => Some (JBool b)
  | VNil => Some JNull
  | _ => None
  end.

(** [s] without its last byte, and that byte. *)
Fixpoint splitLast (s : string) : option (string * ascii) :=
  match s with
  | EmptyString => None
  | String c rest =>
      match splitLast rest with
      | None => Some (EmptyString, c)
      | Some (body, last) => Some (String c body, last)
      end
  end.

(** Reading a decimal integer. *)
Definition parseInt (s : string) : option Z :=
  option_map Z.of_int (NilZero.int_of_string s).

(** Reading one JSON scalar: a string between quotes, an integer, [true],
    [false] or [null]. *)
Definition readScalar (s : string) : option JSONScalar :=
  match s with
  | EmptyString => None
  | String c rest =>
      if Ascii.eqb c dq then
        match splitLast rest with
        | Some (body, last) =>
            if Ascii.eqb last dq
            then option_map JString (unescapeJSON body)
            else None
        | None => None
        end
      else
        match parseInt s with
        | Some z => Some (JNumber z)
        | None =>
            if String.eqb s "true" then Some (JBool true)
            else if String.eqb s "false" then Some (JBool false)
            else if String.eqb s "null" then Some JNull
            else None
        end
  end.

(** The integer types [formatJSONValue] has no case of its own for. *)
Definition fallbackIntegers : list (Z -> Value) :=
  [VInt8; VInt16; VInt32; VUint; VUint8; VUint16; VUint32; VUint64].





(** The key [processFields] stores the field [k] under, and the value it
    stores for it when the field holds [v]: the transformer's result when
    there is a transformer for [k], otherwise the mask when masking is on
    and [k] is a sensitive field, otherwise [v]. *)
Definition renamed (f : formatter.json.JSONFormatter) (k : string) : string :=
  match lookup (formatter.json.FieldKeyMap f) k with
  | Some mappedKey => mappedKey
  | None => k
  end.

Definition processed (f : formatter.json.JSONFormatter) (k : string)
    (v : Value) : Value :=
  match lookup (formatter.json.FieldTransformers f) k with
  | Some transformer => transformer v
  | None =>
      if formatter.json.MaskSensitiveData f
         && formatter.json.isSensitive f k
      then VBytes (formatter.json.MaskStringBytes f)
      else v
  end.

(** The names of the built-in columns of the CSV formatter. *)
Definition builtinNames : list string :=
  ["timestamp"; "level"; "message"; "pid"; "goroutine_id"; "trace_id";
   "file"; "line"; "error"].

(** The entry [entry] with its fields replaced by [fields]. *)
Definition withFields (entry : LogEntry) (fields : map Value) : LogEntry :=
  {| Timestamp := Timestamp entry; Level_ := Level_ entry;
     Message := Message entry; PID := PID entry;
     GoroutineID := GoroutineID entry; TraceID := TraceID entry;
     SpanID := SpanID entry; UserID := UserID entry;
     Caller := Caller entry; Fields := fields;
     StackTrace := StackTrace entry; Error_ := Error_ entry |}.

(** The events of [n] failed attempts in a row, from attempt number [a] on,
    each followed by its backoff. *)
Fixpoint retriesFrom (a : Z) (n : nat) : list hook.Event :=
  match n with
  | O => []
  | S n' =>
      hook.Post a :: hook.Sleep (hook.backoffDuration a)
        :: retriesFrom (a + 1) n'
  end.

(** The time slept in a trace, in nanoseconds. *)
Fixpoint totalSleep (trace : list hook.Event) : Z :=
  match trace with
  | [] => 0
  | hook.Sleep d :: rest => d + totalSleep rest
  | hook.Post _ :: rest => totalSleep rest
  end.

(** A run of [Log] calls on a sampler, one after the other. *)
Definition logAll (ls : sampler.LogSampler) (calls : list sampler.LogCall)
    : sampler.LogSampler :=
  fold_left
    (fun ls call =>
       sampler.Log ls (fst (fst call)) (snd (fst call)) (snd call))
    calls ls.

(** The calls whose position, counted from [pos] for the first one, is a
    multiple of [r]. *)
Fixpoint everyNth (r pos : Z) (calls : list sampler.LogCall)
    : list sampler.LogCall :=
  match calls with
  | [] => []
  | call :: rest =>
      if pos mod r =? 0 then call :: everyNth r (pos + 1) rest
      else everyNth r (pos + 1) rest
  end.

(** Is there a [Close] among the calls? *)
Fixpoint hasClose (cs : list writer.Call) : bool :=
  match cs with
  | [] => false
  | writer.CallWrite _ :: rest => hasClose rest
  | writer.CallClose :: _ => true
  end.

(** The calls a writer is said to pass on to its file, [closed] telling
    whether the writer was closed before: every [Write] with its bytes, and
    of the [Close] calls the first one only. *)
Fixpoint passedOn (closed : bool) (cs : list writer.Call)
    : list writer.FileCall :=
  match cs with
  | [] => []
  | writer.CallWrite p :: rest => writer.FileWrite p :: passedOn closed rest
  | writer.CallClose :: rest =>
      if closed then passedOn true rest
      else writer.FileClose :: passedOn true rest
  end.

Definition isFileClose (c : writer.FileCall) : bool :=
  match c with
  | writer.FileClose => true
  | writer.FileWrite _ => false
  end.

(** What the call [c] is said to return on a writer over the file [f] after
    the calls [before]: for a [Write] the answer of the file, for the first
    [Close] the error the file answers, for a later [Close] nil. *)
Definition answered (closed : bool) (f : writer.File)
    (before : list writer.Call) (c : writer.Call) : Z * option error :=
  let history := (writer.reached f ++ passedOn closed before)%list in
  match c with
  | writer.CallWrite p => writer.answer f history (writer.FileWrite p)
  | writer.CallClose =>
      if closed || hasClose before then (0, None)
      else (0, snd (writer.answer f history writer.FileClose))
  end.

(** The name of the counter of a level. *)
Definition counterName (level : Level) : string :=
  "log." ++ ToLower (metric.Level_String level).

(** How many of the records are counter increments at the level [level]. *)
Fixpoint increments (level : Level) (rs : list metric.Record_) : nat :=
  match rs with
  | [] => O
  | metric.Counter l _ :: rest =>
      if Level_rank l =? Level_rank level then S (increments level rest)
      else increments level rest
  | _ :: rest => increments level rest
  end.

(** A byte that is not the at sign. *)
Definition notAt (c : ascii) : bool := negb (Ascii.eqb c "@").

(** The part of the local part of an address that [MaskEmail] keeps: its
    first two bytes when it has more than two, nothing otherwise. *)
Definition keptPrefix (localPart : string) : string :=
  if 2 <? len localPart then slice_to localPart 2 else EmptyString.

(** Reading on from just after an opening quote to the closing quote: the
    bytes between the two, escapes kept, and the bytes after the closing
    quote. *)
Fixpoint scanString (s : string) : option (string * string) :=
  match s with
  | EmptyString => None
  | String c rest =>
      if Ascii.eqb c dq then Some (EmptyString, rest)
      else if Ascii.eqb c bs then
        match rest with
        | EmptyString => None
        | String e rest' =>
            match scanString rest' with
            | Some (body, after) => Some (String c (String e body), after)
            | None => None
            end
        end
      else
        match scanString rest with
        | Some (body, after) => Some (String c body, after)
        | None => None
        end
  end.

(** The bytes up to the next comma, and the bytes from that comma on. *)
Fixpoint scanToken (s : string) : string * string :=
  match s with
  | EmptyString => (EmptyString, EmptyString)
  | String c rest =>
      if Ascii.eqb c "," then (EmptyString, s)
      else let (token, after) := scanToken rest in (String c token, after)
  end.

(** Reading one member of a JSON object whose value is a scalar: a name
    between quotes, a colon, the value.  The result is the name, the value
    and the bytes left. *)
Definition readMember (s : string)
    : option (string * JSONScalar * string) :=
  match s with
  | EmptyString => None
  | String c rest =>
      if Ascii.eqb c dq then
        match scanString rest with
        | Some (rawName, String colon value) =>
            if Ascii.eqb colon ":" then
              match unescapeJSON rawName, value with
              | Some name, String v0 vrest =>
                  if Ascii.eqb v0 dq then
                    match scanString vrest with
                    | Some (rawValue, after) =>
                        match unescapeJSON rawValue with
                        | Some text => Some (name, JString text, after)
                        | None => None
                        end
                    | None => None
                    end
                  else
                    let (token, after) := scanToken value in
                    match readScalar token with
                    | Some j => Some (name, j, after)
                    | None => None
                    end
              | _, _ => None
              end
            else None
        | _ => None
        end
      else None
  end.

(** Reading members separated by commas, at most [fuel] of them. *)
Fixpoint readMembers (fuel : nat) (s : string)
    : option (list (string * JSONScalar)) :=
  match fuel with
  | O => None
  | S fuel' =>
      match readMember s with
      | Some (name, j, after) =>
          match after with
          | EmptyString => Some [(name, j)]
          | String c rest =>
              if Ascii.eqb c ","
              then option_map (cons (name, j)) (readMembers fuel' rest)
              else None
          end
      | None => None
      end
  end.

(** Reading what stands between the braces of a JSON object with scalar
    values. *)
Definition readFields (s : string) : option (list (string * JSONScalar)) :=
  match s with
  | EmptyString => Some []
  | _ => readMembers (String.length s) s
  end.

(** The names and scalars of a field map, when every value has one. *)
Fixpoint fieldViews (fields : map Value)
    : option (list (string * JSONScalar)) :=
  match fields with
  | [] => Some []
  | (k, v) :: rest =>
      match jsonView v, fieldViews rest with
      | Some j, Some js => Some ((k, j) :: js)
      | _, _ => None
      end
  end.

(** A byte that is not the comma. *)
Definition notComma (c : ascii) : bool := negb (Ascii.eqb c ",").

(** One member as [formatManually] writes it: the name between quotes, a
    colon, the value. *)
Definition memberText (k : string) (v : Value) : string :=
  String dq (k ++ String dq (String ":" (formatter.json.formatJSONValue
                                           EmptyString v))).

(** The members of a field map as the compact form writes them between the
    braces of [fields]: one after the other, with commas in between. *)
Definition fieldsText (fields : map Value) : string :=
  formatter.json.formatFieldsLoop EmptyString fields true.

(** Every field name is made of bytes that need no escape. *)
Definition plainNames (fields : map Value) : bool :=
  forallb (allBytes plainByte) (keys fields).

End spec.

(** ** Concrete entries and formatters used as inputs *)

Module examples.
Import Go core.

Definition noon : Time :=
  {| Time_Format := fun _ => "2024-05-01T12:00:00Z" |}.

Definition entryWith (message : string) (fields : map Value) : LogEntry :=
  {| Timestamp := noon; Level_ := INFO; Message := message; PID := 42;
     GoroutineID := "7"; TraceID := EmptyString; SpanID := EmptyString;
     UserID := EmptyString; Caller := None; Fields := fields;
     StackTrace := EmptyString; Error_ := None |}.

(** A login event that carries a password. *)
Definition loginEntry : LogEntry :=
  entryWith "login" [("user", VString "ann"); ("password", VString "hunter2")].

(** A JSON formatter configured to mask the field [password]. *)
Definition maskingJSON : formatter.json.JSONFormatter :=
  {| formatter.json.PrettyPrint := false;
     formatter.json.TimestampFormat := EmptyString;
     formatter.json.ShowCaller := false;
     formatter.json.ShowGoroutine := false;
     formatter.json.ShowPID := false;
     formatter.json.ShowTraceInfo := false;
     formatter.json.EnableStackTrace := false;
     formatter.json.EnableDuration := false;
     formatter.json.FieldKeyMap := [];
     formatter.json.DisableHTMLEscape := false;
     formatter.json.SensitiveFields := ["password"];
     formatter.json.MaskSensitiveData := true;
     formatter.json.MaskStringValue := "[MASKED]";
     formatter.json.MaskStringBytes := "[MASKED]";
     formatter.json.FieldTransformers := [] |}.

(** The same formatter with masking switched off and nothing to mask. *)
Definition maskingOff (f : formatter.json.JSONFormatter)
    : formatter.json.JSONFormatter :=
  {| formatter.json.PrettyPrint := formatter.json.PrettyPrint f;
     formatter.json.TimestampFormat := formatter.json.TimestampFormat f;
     formatter.json.ShowCaller := formatter.json.ShowCaller f;
     formatter.json.ShowGoroutine := formatter.json.ShowGoroutine f;
     formatter.json.ShowPID := formatter.json.ShowPID f;
     formatter.json.ShowTraceInfo := formatter.json.ShowTraceInfo f;
     formatter.json.EnableStackTrace := formatter.json.EnableStackTrace f;
     formatter.json.EnableDuration := formatter.json.EnableDuration f;
     formatter.json.FieldKeyMap := formatter.json.FieldKeyMap f;
     formatter.json.DisableHTMLEscape := formatter.json.DisableHTMLEscape f;
     formatter.json.SensitiveFields := [];
     formatter.json.MaskSensitiveData := false;
     formatter.json.MaskStringValue := EmptyString;
     formatter.json.MaskStringBytes := EmptyString;
     formatter.json.FieldTransformers := formatter.json.FieldTransformers f |}.

(** An entry with a field holding a space and a number, and a CSV
    formatter with these two columns, the level and a column of no field. *)
Definition noteEntry : LogEntry :=
  entryWith "m" [("note", VString "two words"); ("n", VInt 7)].

Definition noteCSV : formatter.csv.CSVFormatter :=
  {| formatter.csv.IncludeHeader := false;
     formatter.csv.FieldOrder := ["level"; "note"; "missing"; "n"];
     formatter.csv.TimestampFormat := EmptyString |}.

(** A CSV formatter whose record has the columns [user] and [password]. *)
Definition passwordCSV : formatter.csv.CSVFormatter :=
  {| formatter.csv.IncludeHeader := false;
     formatter.csv.FieldOrder := ["user"; "password"];
     formatter.csv.TimestampFormat := EmptyString |}.

(** Two entries with different fields: one has the fields [a] and [b], the
    other the single field whose name is the eight bytes
    a, quote, colon, 1, comma, quote, b. *)
Definition twoFields : LogEntry :=
  entryWith "m" [("a", VInt 1); ("b", VInt 2)].

Definition quotedName : string := "a" ++ byte1 dq ++ ":1," ++ byte1 dq ++ "b".

Definition oneField : LogEntry :=
  entryWith "m" [(quotedName, VInt 2)].

(** A hook with three attempts, a server that answers 500 twice and then
    200, and a server that always answers 500. *)
Definition hook3 : hook.ExternalHook :=
  {| hook.endpoint := "http://example.com/logs";
     hook.client := {| hook.Timeout := 5 * hook.Second |};
     hook.maxRetries := 3;
     hook.timeout := 5 * hook.Second |}.

Definition flaky (attempt : Z) : hook.Outcome :=
  if attempt <? 2 then hook.Response 500 else hook.Response 200.

Definition down (attempt : Z) : hook.Outcome := hook.Response 500.

(** A synchronous Logger at INFO whose Formatter and Writer do not fail. *)
Definition syncLogger : logger.Logger :=
  logger.New INFO false 0 (fun _ => None) (fun _ => None).

Definition ENOSPC : error := errorString "no space left on device".
Definition ErrClosed : error := errorString "file already closed".

(** A file on a disk with room for five more bytes: a write to it is cut
    short with an error when the room is used up, and every call after a
    [Close] fails. *)
Definition smallDisk : writer.File :=
  {| writer.reached := [];
     writer.answer := fun history call =>
       if existsb spec.isFileClose history then (0, Some ErrClosed)
       else
         match call with
         | writer.FileClose => (0, None)
         | writer.FileWrite p =>
             let used :=
               fold_left (fun n c => match c with
                                     | writer.FileWrite q => n + len q
                                     | writer.FileClose => n
                                     end) history 0 in
             let room := Z.max 0 (5 - used) in
             if len p <=? room then (len p, None) else (room, Some ENOSPC)
         end |}.

(** A formatter that masks [password] and [token], renames [user] to
    [login] and upper-cases nothing but replaces every [token] by a fixed
    value through a transformer. *)
Definition processingJSON : formatter.json.JSONFormatter :=
  {| formatter.json.PrettyPrint := false;
     formatter.json.TimestampFormat := EmptyString;
     formatter.json.ShowCaller := false;
     formatter.json.ShowGoroutine := false;
     formatter.json.ShowPID := false;
     formatter.json.ShowTraceInfo := false;
     formatter.json.EnableStackTrace := false;
     formatter.json.EnableDuration := false;
     formatter.json.FieldKeyMap := [("user", "login")];
     formatter.json.DisableHTMLEscape := false;
     formatter.json.SensitiveFields := ["password"; "token"];
     formatter.json.MaskSensitiveData := true;
     formatter.json.MaskStringValue := "[MASKED]";
     formatter.json.MaskStringBytes := "[MASKED]";
     formatter.json.FieldTransformers :=
       [("token", fun _ => VString "t-1")] |}.

Definition secretFields : map Value :=
  [("user", VString "ann"); ("password", VString "hunter2");
   ("token", VString "abc")].

(** Three [Log] calls. *)
Definition threeCalls : list sampler.LogCall :=
  [(INFO, "a", []); (INFO, "b", []); (WARN, "c", [("k", "v")])].

(** Fields with plain names and values of several types, one of them a
    string with quotes and a comma in it. *)
Definition mixedFields : map Value :=
  [("user_id", VInt 123); ("action", VString "login");
   ("note", VString quotedName); ("ok", VBool true); ("ref", VNil);
   ("delta", VInt64 (-5))].

End examples.

(* ================================================================== *)
(** * Part II: the properties                                          *)
(* ================================================================== *)

(** ** Byte strings *)

Lemma append_nil_r (s : string) : s ++ "" = s.
Proof. induction s as [|c s IH]; simpl; [reflexivity | now rewrite IH]. Qed.

Lemma append_assoc (a b c : string) : (a ++ b) ++ c = a ++ (b ++ c).
Proof. induction a as [|x a IH]; simpl; [reflexivity | now rewrite IH]. Qed.

Lemma length_append (a b : string) :
  String.length (a ++ b) = (String.length a + String.length b)%nat.
Proof. induction a as [|x a IH]; simpl; [reflexivity | now rewrite IH]. Qed.

Lemma prefix_byte1 (c : ascii) (s : string) :
  prefix (String c "") s = true <-> exists b, s = String c b.
Proof.
  destruct s as [|x s]; simpl.
  - split; [discriminate | intros [b Hb]; discriminate].
  - destruct (ascii_dec c x) as [->|Hne].
    + split; [intros _; now exists s | intros _; now destruct s].
    + split; [discriminate | intros [b Hb]; congruence].
Qed.

Lemma Contains_byte1 (c : ascii) (s : string) :
  Go.Contains s (String c "") = true <-> spec.hasByte c s.
Proof.
  unfold spec.hasByte. induction s as [|x s IH].
  - simpl. split; [discriminate|].
    intros (a & b & H). destruct a; discriminate.
  - cbn [Go.Contains]. rewrite orb_true_iff, prefix_byte1, IH. split.
    + intros [[b Hb] | (a & b & Hab)].
      * exists "", b. exact Hb.
      * exists (String x a), b. simpl. now rewrite Hab.
    + intros (a & b & Hab). destruct a as [|y a]; simpl in Hab.
      * left. now exists b.
      * right. injection Hab as _ Hab. now exists a, b.
Qed.

Lemma substring_0_split (n : nat) (s : string) :
  (n <= String.length s)%nat ->
  String.length (substring 0 n s) = n /\
  exists rest, s = substring 0 n s ++ rest.
Proof.
  revert s. induction n as [|n IH]; intros s Hn.
  - destruct s; simpl; split; try reflexivity; eexists; reflexivity.
  - destruct s as [|c s]; simpl in *; [lia|].
    destruct (IH s ltac:(lia)) as [Hl [rest Hr]].
    split; [now rewrite Hl|]. exists rest. now rewrite <- Hr.
Qed.

(** ** [util.FormatValue] *)

Lemma writeContent_spec (buf content : string) (maxWidth : Z) :
  0 < maxWidth ->
  (maxWidth < Go.len content ->
     exists pre, spec.firstBytes maxWidth content pre /\
       util.writeContent buf content maxWidth = buf ++ pre ++ "...")
  /\
  (Go.len content <= maxWidth ->
     (spec.hasByte " " content ->
        util.writeContent buf content maxWidth
        = buf ++ Go.byte1 Go.dq ++ content ++ Go.byte1 Go.dq) /\
     (~ spec.hasByte " " content ->
        util.writeContent buf content maxWidth = buf ++ content)).
Proof.
  intros Hpos. unfold util.writeContent.
  assert (H0 : (0 <? maxWidth) = true) by (apply Z.ltb_lt; lia).
  rewrite H0. cbn [andb]. split.
  - intros Hlt. assert (H1 : (maxWidth <? Go.len content) = true)
      by (apply Z.ltb_lt; lia).
    rewrite H1. unfold Go.len in Hlt.
    destruct (substring_0_split (Z.to_nat maxWidth) content ltac:(lia))
      as [Hl [rest Hr]].
    exists (Go.slice_to content maxWidth). split.
    + split; [unfold Go.len, Go.slice_to; lia | now exists rest].
    + unfold Go.Write. now rewrite append_assoc.
  - intros Hle. assert (H1 : (maxWidth <? Go.len content) = false)
      by (apply Z.ltb_ge; lia).
    rewrite H1. split; intros Hsp.
    + apply Contains_byte1 in Hsp. rewrite Hsp.
      unfold Go.WriteByte, Go.Write. now rewrite !append_assoc.
    + destruct (Go.Contains content " ") eqn:E.
      * exfalso. apply Hsp. now apply Contains_byte1.
      * reflexivity.
Qed.

Lemma FormatValue_writeContent (buf : string) (value : core.Value)
    (maxWidth : Z) :
  spec.implementsErrorAppender value = false ->
  util.FormatValue buf value maxWidth
  = util.writeContent buf (spec.renderedContent value) maxWidth.
Proof.
  destruct value as [v|v|v|v|v|v|v|v|v|v|v|v|v|v|v| |v| ];
    try reflexivity.
  destruct v; cbn [spec.implementsErrorAppender]; intros H;
    [reflexivity | reflexivity | discriminate H].
Qed.

(** C8, as amended.  For every value that is not an error implementing
    [core.ErrorAppender] and every [maxWidth > 0]: if the rendered content
    is longer than [maxWidth], [util.FormatValue] writes the first
    [maxWidth] bytes of the content followed by the three bytes of an
    ellipsis and nothing else; otherwise it writes the content between
    double quotes when the content holds a space byte and bare when it does
    not.  For an error implementing [core.ErrorAppender] it writes what the
    error appends, whole and unquoted, whatever [maxWidth]. *)
Theorem FormatValue_truncates_or_quotes :
  forall (buf : string) (value : core.Value) (maxWidth : Z),
    0 < maxWidth ->
    (spec.implementsErrorAppender value = false ->
       spec.FormatValue_spec buf value maxWidth
         (util.FormatValue buf value maxWidth)) /\
    (spec.implementsErrorAppender value = true ->
       util.FormatValue buf value maxWidth
       = buf ++ spec.renderedContent value).
Proof.
  intros buf value maxWidth Hpos. split; intros Happ.
  - rewrite FormatValue_writeContent by assumption.
    unfold spec.FormatValue_spec. now apply writeContent_spec.
  - destruct value; try discriminate.
    destruct v; try discriminate. reflexivity.
Qed.

Lemma FormatValue_truncates_or_quotes_witness :
  0 < 5 /\
  spec.FormatValue_spec "log: " (core.VString "hello world") 5
    (util.FormatValue "log: " (core.VString "hello world") 5).
Proof.
  split; [lia|].
  apply (FormatValue_truncates_or_quotes "log: "
           (core.VString "hello world") 5); [lia | reflexivity].
Defined.

(** C8, as first stated, fails for an error that implements
    [core.ErrorAppender]: its nine bytes are written whole under the
    width 3. *)
Lemma FormatValue_appender_not_truncated :
  0 < 3 /\
  ~ spec.FormatValue_spec ""
      (core.VError (Go.appenderError "disk full" "disk full")) 3
      (util.FormatValue ""
         (core.VError (Go.appenderError "disk full" "disk full")) 3).
Proof.
  split; [lia|]. intros [Hlong _].
  destruct Hlong as (pre & [Hlen _] & Hout); [vm_compute; reflexivity|].
  apply (f_equal String.length) in Hout.
  cbn [util.FormatValue Go.Write] in Hout.
  rewrite !length_append in Hout. unfold Go.len in Hlen.
  simpl in Hout. lia.
Qed.

(** ** The CSV formatter *)

Lemma writeContent_append (buf content : string) (maxWidth : Z) :
  util.writeContent buf content maxWidth
  = buf ++ util.writeContent "" content maxWidth.
Proof.
  unfold util.writeContent, Go.Write, Go.WriteByte.
  destruct ((0 <? maxWidth) && (maxWidth <? Go.len content));
    [|destruct (Go.Contains content " ")];
    cbn [append]; now rewrite ?append_assoc.
Qed.

Lemma FormatValue_append (buf : string) (value : core.Value) (maxWidth : Z) :
  util.FormatValue buf value maxWidth
  = buf ++ util.FormatValue "" value maxWidth.
Proof.
  destruct value as [v|v|v|v|v|v|v|v|v|v|v|v|v|v|v| |v| ];
    cbn [util.FormatValue]; try apply writeContent_append.
  destruct v; try apply writeContent_append. reflexivity.
Qed.

Lemma holdsByte_Contains (c : ascii) (s : string) :
  Go.Contains s (Go.byte1 c) = spec.holdsByte c s.
Proof.
  induction s as [|x s IH]; [reflexivity|].
  cbn [Go.Contains spec.holdsByte]. rewrite IH. f_equal.
  unfold Go.byte1. cbn [prefix].
  destruct (ascii_dec c x) as [->|Hne].
  - rewrite Ascii.eqb_refl. now destruct s.
  - symmetry. apply Ascii.eqb_neq. congruence.
Qed.

Lemma FormatValue_renderedValue (value : core.Value) :
  util.FormatValue "" value 0 = spec.renderedValue value.
Proof.
  unfold spec.renderedValue.
  destruct (spec.implementsErrorAppender value) eqn:E.
  - destruct value; try discriminate E. destruct v; try discriminate E.
    reflexivity.
  - rewrite (FormatValue_writeContent _ _ _ E). unfold util.writeContent.
    cbn [Z.ltb Z.compare andb].
    change " " with (Go.byte1 " "%char). rewrite holdsByte_Contains.
    destruct (spec.holdsByte " " (spec.renderedContent value)); reflexivity.
Qed.

Lemma formatField_column (f : formatter.csv.CSVFormatter) (valBuf : string)
    (name : string) (entry : core.LogEntry) :
  formatter.csv.formatField f valBuf name entry
  = valBuf ++ spec.column f entry name.
Proof.
  unfold formatter.csv.formatField, spec.column, spec.builtinColumns.
  cbn [Go.lookup].
  repeat match goal with
         | |- context [String.eqb name ?k] => destruct (String.eqb name k)
         end;
    try reflexivity;
    try (destruct (core.Caller entry); [reflexivity | now rewrite append_nil_r]).
  - destruct (core.Error_ entry) as [[msg|msg err|msg app]|];
      try reflexivity. now rewrite append_nil_r.
  - destruct (Go.lookup (core.Fields entry) name) as [val|].
    + rewrite FormatValue_append. now rewrite FormatValue_renderedValue.
    + now rewrite append_nil_r.
Qed.

Lemma formatLoop_columns (f : formatter.csv.CSVFormatter)
    (entry : core.LogEntry) (fieldOrder : list string) :
  forall (valBuf : string) (record : list string),
    formatter.csv.formatLoop f entry fieldOrder valBuf record
    = (record ++ List.map (spec.column f entry) fieldOrder)%list.
Proof.
  induction fieldOrder as [|name rest IH]; intros valBuf record;
    cbn [formatter.csv.formatLoop List.map].
  - now rewrite app_nil_r.
  - rewrite IH, formatField_column. unfold Go.Reset. cbn [append].
    now rewrite <- app_assoc.
Qed.

(** What [encoding/csv] writes for a record is the record as CSV has it. *)

Lemma hasSpecial_holdsByte (field : string) :
  encoding_csv.hasSpecial "," field
  = spec.holdsByte "," field || spec.holdsByte Go.dq field
    || spec.holdsByte spec.CR field || spec.holdsByte spec.LF field.
Proof.
  induction field as [|c rest IH]; [reflexivity|].
  cbn [encoding_csv.hasSpecial spec.holdsByte]. rewrite IH.
  unfold spec.CR, spec.LF.
  destruct (Ascii.eqb c "010"), (Ascii.eqb c "013"), (Ascii.eqb c Go.dq),
    (Ascii.eqb c ","), (spec.holdsByte "," rest),
    (spec.holdsByte Go.dq rest), (spec.holdsByte "013" rest),
    (spec.holdsByte "010" rest); reflexivity.
Qed.

Lemma quoteBody_doubled (field : string) :
  encoding_csv.quoteBody false field = spec.doubled field.
Proof.
  induction field as [|c rest IH]; [reflexivity|].
  cbn [encoding_csv.quoteBody spec.doubled]. rewrite IH.
  destruct (Ascii.eqb c Go.dq); [reflexivity|].
  destruct (Ascii.eqb_spec c "013") as [->|_]; [reflexivity|].
  destruct (Ascii.eqb_spec c "010") as [->|_]; reflexivity.
Qed.

Lemma eqb_ascii_of_N (k : N) (c : ascii) :
  (k <? 256)%N = true ->
  Ascii.eqb (ascii_of_N k) c = (N_of_ascii c =? k)%N.
Proof.
  intros Hk. apply N.ltb_lt in Hk.
  destruct (Ascii.eqb_spec (ascii_of_N k) c) as [<-|Hne].
  - rewrite N_ascii_embedding by exact Hk. symmetry. apply N.eqb_refl.
  - symmetry. apply N.eqb_neq. intros H. apply Hne. rewrite <- H.
    apply ascii_N_embedding.
Qed.

(** Case analysis on a byte value against a list of constants. *)
Ltac by_cases b ks :=
  lazymatch ks with
  | (?k :: ?ks')%list =>
      destruct (N.eq_dec b k) as [->|?]; [|by_cases b ks']
  | _ => idtac
  end.

Ltac no_eqb :=
  repeat match goal with
         | H : ?b <> ?k |- context [(?b =? ?k)%N] =>
             rewrite (proj2 (N.eqb_neq b k) H)
         end.

Ltac no_leb :=
  repeat match goal with
         | |- context [(?a <=? ?b)%N] => destruct (N.leb_spec a b)
         end.

Ltac bytes_done :=
  cbn; no_eqb; cbn; no_leb; cbn; first [reflexivity | exfalso; lia].

Lemma firstRuneIsSpace_spaceRunes (field : string) :
  encoding_csv.firstRuneIsSpace field
  = existsb (fun p => spec.startsWith p field) spec.spaceRunes.
Proof.
  cbv [spec.spaceRunes List.map spec.bytesOf fold_right existsb].
  destruct field as [|c0 [|c1 [|c2 rest]]];
    cbn [spec.startsWith encoding_csv.firstRuneIsSpace];
    rewrite ?eqb_ascii_of_N by reflexivity;
    rewrite ?andb_true_r, ?andb_false_r, ?orb_false_r;
    try reflexivity.
  - generalize (N_of_ascii c0) as b0. intros b0.
    by_cases b0 [9; 10; 11; 12; 13; 32]%N; bytes_done.
  - generalize (N_of_ascii c0) as b0, (N_of_ascii c1) as b1. intros b0 b1.
    by_cases b0 [9; 10; 11; 12; 13; 32; 194]%N; try solve [bytes_done];
      by_cases b1 [133; 160]%N; bytes_done.
  - generalize (N_of_ascii c0) as b0, (N_of_ascii c1) as b1,
      (N_of_ascii c2) as b2. intros b0 b1 b2.
    by_cases b0 [9; 10; 11; 12; 13; 32; 194; 225; 226; 227]%N;
      try solve [bytes_done];
      by_cases b1 [133; 160; 154; 128; 129]%N; try solve [bytes_done];
      by_cases b2 [128; 129; 130; 131; 132; 133; 134; 135; 136; 137; 138;
                   168; 169; 175; 159]%N;
      bytes_done.
Qed.

Lemma fieldNeedsQuotes_mustQuote (wr : encoding_csv.Writer) (field : string) :
  encoding_csv.Comma wr = ","%char ->
  encoding_csv.fieldNeedsQuotes wr field = spec.mustQuote field.
Proof.
  intros Hc. unfold encoding_csv.fieldNeedsQuotes, spec.mustQuote.
  rewrite Hc, hasSpecial_holdsByte, firstRuneIsSpace_spaceRunes.
  destruct field as [|c rest]; [reflexivity|].
  change (String.eqb (String c rest) "") with false. cbv iota.
  change (Go.byte1 Go.bs ++ ".") with (String Go.bs ".").
  destruct (String.eqb (String c rest) (String Go.bs ".")),
    (spec.holdsByte "," (String c rest)),
    (spec.holdsByte Go.dq (String c rest)),
    (spec.holdsByte spec.CR (String c rest)),
    (spec.holdsByte spec.LF (String c rest)); reflexivity.
Qed.

Lemma encodeField_csvColumn (wr : encoding_csv.Writer) (field : string) :
  encoding_csv.Comma wr = ","%char ->
  encoding_csv.UseCRLF wr = false ->
  encoding_csv.encodeField wr field = spec.csvColumn field.
Proof.
  intros Hc Hu. unfold encoding_csv.encodeField, spec.csvColumn.
  rewrite (fieldNeedsQuotes_mustQuote _ _ Hc), Hu, quoteBody_doubled.
  reflexivity.
Qed.

Lemma encodeFields_concat (wr : encoding_csv.Writer) (record : list string) :
  encoding_csv.Comma wr = ","%char ->
  encoding_csv.UseCRLF wr = false ->
  forall n : nat,
    encoding_csv.encodeFields wr n record
    = match record with
      | [] => ""
      | _ :: _ =>
          (match n with O => "" | S _ => "," end)
          ++ String.concat "," (List.map spec.csvColumn record)
      end.
Proof.
  intros Hc Hu. induction record as [|field rest IH]; intros n;
    [reflexivity|].
  cbn [encoding_csv.encodeFields List.map]. rewrite (IH (S n)), Hc.
  rewrite (encodeField_csvColumn _ _ Hc Hu). f_equal.
  destruct rest as [|field' rest]; [now rewrite append_nil_r|].
  reflexivity.
Qed.

Lemma encodeRecord_csvRecord (buf : string) (record : list string) :
  encoding_csv.encodeRecord (encoding_csv.NewWriter buf) record
  = spec.csvRecord record.
Proof.
  unfold encoding_csv.encodeRecord, spec.csvRecord.
  rewrite encodeFields_concat by reflexivity.
  destruct record; reflexivity.
Qed.

Lemma csv_Format_record (f : formatter.csv.CSVFormatter) (buf : string)
    (entry : core.LogEntry) :
  formatter.csv.Format f buf entry
  = (buf ++ spec.csvRecord
              (List.map (spec.column f entry) (formatter.csv.FieldOrder f)),
     None).
Proof.
  unfold formatter.csv.Format, util.GetStringSliceFromPool,
    util.GetBufferFromPool.
  rewrite formatLoop_columns. cbn [app].
  unfold encoding_csv.Write. cbn -[encoding_csv.encodeRecord].
  rewrite encodeRecord_csvRecord. reflexivity.
Qed.

(** Reading back what is written. *)

Lemma readFrom_plain (column : string) :
  spec.holdsByte "," column = false ->
  spec.holdsByte Go.dq column = false ->
  spec.holdsByte spec.CR column = false ->
  spec.holdsByte spec.LF column = false ->
  forall (read rest : string) (record : list string)
         (records : list (list string)),
    spec.readFrom (column ++ rest) spec.Unquoted read record records
    = spec.readFrom rest spec.Unquoted (read ++ column) record records.
Proof.
  induction column as [|c column IH]; intros H1 H2 H3 H4 read rest record
    records.
  - now rewrite append_nil_r.
  - cbn [spec.holdsByte] in H1, H2, H3, H4.
    apply orb_false_elim in H1, H2, H3, H4.
    destruct H1 as [E1 H1], H2 as [E2 H2], H3 as [E3 H3], H4 as [E4 H4].
    cbn [append spec.readFrom]. rewrite E1, E2, E3, E4. cbn [orb].
    rewrite (IH H1 H2 H3 H4). f_equal.
    rewrite append_assoc. reflexivity.
Qed.

Lemma readFrom_doubled (column : string) :
  forall (read rest : string) (record : list string)
         (records : list (list string)),
    spec.readFrom (spec.doubled column ++ rest) spec.Quoted read record
      records
    = spec.readFrom rest spec.Quoted (read ++ column) record records.
Proof.
  induction column as [|c column IH]; intros read rest record records.
  - now rewrite append_nil_r.
  - cbn [spec.doubled]. destruct (Ascii.eqb_spec c Go.dq) as [->|Hne].
    + cbn [append spec.readFrom]. rewrite Ascii.eqb_refl. rewrite IH.
      f_equal. rewrite append_assoc. reflexivity.
    + apply Ascii.eqb_neq in Hne. cbn [append spec.readFrom]. rewrite Hne.
      rewrite IH. f_equal. rewrite append_assoc. reflexivity.
Qed.

Lemma readFrom_open_quote (st : spec.Reading) (rest : string)
    (record : list string) (records : list (list string)) :
  st = spec.RecordStart \/ st = spec.ColumnStart ->
  spec.readFrom (String Go.dq rest) st "" record records
  = spec.readFrom rest spec.Quoted "" record records.
Proof. intros [-> | ->]; reflexivity. Qed.

Lemma readFrom_close_quote (d : ascii) (rest column : string)
    (record : list string) (records : list (list string)) :
  d = ","%char \/ d = spec.LF ->
  spec.readFrom (String Go.dq (String d rest)) spec.Quoted column record
    records
  = spec.afterColumn d rest column record records.
Proof. intros [-> | ->]; reflexivity. Qed.

Lemma readFrom_end_unquoted (d : ascii) (rest column : string)
    (record : list string) (records : list (list string)) :
  d = ","%char \/ d = spec.LF ->
  spec.readFrom (String d rest) spec.Unquoted column record records
  = spec.afterColumn d rest column record records.
Proof. intros [-> | ->]; reflexivity. Qed.

Lemma readFrom_end_empty (d : ascii) (rest : string) (st : spec.Reading)
    (record : list string) (records : list (list string)) :
  d = ","%char \/ d = spec.LF ->
  st = spec.RecordStart \/ st = spec.ColumnStart ->
  spec.readFrom (String d rest) st "" record records
  = spec.afterColumn d rest "" record records.
Proof. intros [-> | ->] [-> | ->]; reflexivity. Qed.

Lemma readFrom_first_byte (c : ascii) (rest : string) (st : spec.Reading)
    (record : list string) (records : list (list string)) :
  Ascii.eqb c "," = false -> Ascii.eqb c Go.dq = false ->
  Ascii.eqb c spec.CR = false -> Ascii.eqb c spec.LF = false ->
  st = spec.RecordStart \/ st = spec.ColumnStart ->
  spec.readFrom (String c rest) st "" record records
  = spec.readFrom rest spec.Unquoted (Go.byte1 c) record records.
Proof.
  intros H1 H2 H3 H4 [-> | ->]; cbn [spec.readFrom];
    now rewrite H1, H2, H3, H4.
Qed.

Lemma readFrom_csvColumn (column : string) (d : ascii) (rest : string)
    (st : spec.Reading) (record : list string)
    (records : list (list string)) :
  d = ","%char \/ d = spec.LF ->
  st = spec.RecordStart \/ st = spec.ColumnStart ->
  spec.readFrom (spec.csvColumn column ++ String d rest) st "" record records
  = spec.afterColumn d rest column record records.
Proof.
  intros Hd Hst. unfold spec.csvColumn.
  destruct (spec.mustQuote column) eqn:Q.
  - cbn [append]. rewrite append_assoc. unfold Go.byte1. cbn [append].
    rewrite (readFrom_open_quote _ _ _ _ Hst), readFrom_doubled.
    cbn [append]. now apply readFrom_close_quote.
  - unfold spec.mustQuote in Q.
    repeat (apply orb_false_elim in Q; destruct Q as [Q ?]).
    destruct column as [|c column].
    + now apply readFrom_end_empty.
    + cbn [spec.holdsByte] in *.
      repeat match goal with
             | H : _ || _ = false |- _ =>
                 apply orb_false_elim in H; destruct H
             end.
      cbn [append].
      rewrite readFrom_first_byte by assumption.
      rewrite readFrom_plain by assumption.
      now apply readFrom_end_unquoted.
Qed.

Lemma readFrom_columns (columns : list string) :
  columns <> [] ->
  forall (st : spec.Reading) (rest : string) (record : list string)
         (records : list (list string)),
    st = spec.RecordStart \/ st = spec.ColumnStart ->
    spec.readFrom
      (String.concat "," (List.map spec.csvColumn columns)
       ++ String spec.LF rest) st "" record records
    = spec.readFrom rest spec.RecordStart "" []
        (records ++ [(record ++ columns)%list])%list.
Proof.
  induction columns as [|column columns IH]; intros Hne st rest record
    records Hst; [contradiction|].
  destruct columns as [|column' columns].
  - cbn [List.map String.concat].
    rewrite readFrom_csvColumn by (assumption || now right). reflexivity.
  - change (String.concat "," (List.map spec.csvColumn
                                 (column :: column' :: columns)))
      with (spec.csvColumn column
            ++ String "," (String.concat ","
                             (List.map spec.csvColumn (column' :: columns)))).
    rewrite append_assoc. cbn [append].
    rewrite readFrom_csvColumn by (assumption || now left).
    unfold spec.afterColumn. cbn [Ascii.eqb Bool.eqb].
    rewrite IH by (discriminate || now right).
    now rewrite <- app_assoc.
Qed.

Lemma readCSV_csvRecord (record : list string) :
  record <> [] ->
  spec.readCSV (spec.csvRecord record) = Some [record].
Proof.
  intros Hne. unfold spec.readCSV, spec.csvRecord, Go.byte1.
  rewrite (readFrom_columns record Hne) by now left. reflexivity.
Qed.

Lemma readCSV_two_records (first second : list string) :
  first <> [] -> second <> [] ->
  spec.readCSV (spec.csvRecord first ++ spec.csvRecord second)
  = Some [first; second].
Proof.
  intros H1 H2. unfold spec.readCSV, spec.csvRecord, Go.byte1.
  rewrite append_assoc. cbn [append].
  rewrite (readFrom_columns first H1) by now left.
  rewrite (readFrom_columns second H2) by now left. reflexivity.
Qed.

Lemma lookup_not_in {V : Type} (m : Go.map V) (k : string) :
  ~ In k (Go.keys m) -> Go.lookup m k = None.
Proof.
  induction m as [|[k' v] m IH]; cbn [Go.lookup Go.keys List.map fst In];
    intros Hin; [reflexivity|].
  destruct (String.eqb_spec k k') as [->|Hne].
  - exfalso. apply Hin. now left.
  - apply IH. intros H. apply Hin. now right.
Qed.

(** C6.  For every entry and every CSV formatter, [Format] writes exactly
    one CSV record, whose columns are, in the order of [FieldOrder], the
    rendered value for each of its names: the built-in column of that name
    (timestamp, level, message, pid, goroutine_id, trace_id, file, line,
    error), otherwise the entry field of that name, rendered.  A name that
    is neither built-in nor a field of the entry gives an empty column, and
    the record has no column besides those of [FieldOrder].  The bytes
    written are the columns with commas in between and a line feed at the
    end, a column standing between quotes where CSV asks for it; read back
    as CSV they are one record with these columns.  With an empty
    [FieldOrder] the record has no column and what is written is the bare
    line feed. *)
Theorem csv_Format_columns :
  forall (f : formatter.csv.CSVFormatter) (buf : string)
         (entry : core.LogEntry),
    let record :=
      List.map (spec.column f entry) (formatter.csv.FieldOrder f) in
    formatter.csv.Format f buf entry = (buf ++ spec.csvRecord record, None)
    /\ (formatter.csv.FieldOrder f <> [] ->
        spec.readCSV (fst (formatter.csv.Format f "" entry)) = Some [record])
    /\ (formatter.csv.FieldOrder f = [] ->
        formatter.csv.Format f buf entry = (buf ++ Go.byte1 spec.LF, None))
    /\ List.length record = List.length (formatter.csv.FieldOrder f)
    /\ (forall (i : nat) (name : string),
          nth_error (formatter.csv.FieldOrder f) i = Some name ->
          nth_error record i = Some (spec.column f entry name))
    /\ (forall name rendered : string,
          Go.lookup (spec.builtinColumns f entry) name = Some rendered ->
          spec.column f entry name = rendered)
    /\ (forall (name : string) (val : core.Value),
          ~ In name (Go.keys (spec.builtinColumns f entry)) ->
          Go.lookup (core.Fields entry) name = Some val ->
          spec.column f entry name = spec.renderedValue val)
    /\ (forall name : string,
          ~ In name (Go.keys (spec.builtinColumns f entry)) ->
          ~ In name (Go.keys (core.Fields entry)) ->
          spec.column f entry name = "").
Proof.
  intros f buf entry record.
  split; [apply csv_Format_record|].
  split.
  { intros Hne. rewrite csv_Format_record. cbn [fst append].
    apply readCSV_csvRecord. fold record. unfold record.
    destruct (formatter.csv.FieldOrder f); [contradiction | discriminate]. }
  split.
  { intros Hempty. rewrite csv_Format_record, Hempty. reflexivity. }
  split; [unfold record; apply length_map|].
  split; [intros i name Hi; unfold record; now apply map_nth_error|].
  split; [intros name rendered Hb; unfold spec.column; now rewrite Hb|].
  split.
  - intros name val Hb Hf. unfold spec.column.
    now rewrite (lookup_not_in _ _ Hb), Hf.
  - intros name Hb Hf. unfold spec.column.
    now rewrite (lookup_not_in _ _ Hb), (lookup_not_in _ _ Hf).
Qed.

(** An entry at INFO with a field holding a space, under the columns
    level, note, missing, n: the note is rendered between quotes, and the
    record has it between quotes with each of the two doubled. *)
Example csv_Format_note :
  let q := Go.byte1 Go.dq in
  formatter.csv.Format examples.noteCSV "" examples.noteEntry
  = ("INFO," ++ q ++ q ++ q ++ "two words" ++ q ++ q ++ q ++ ",,7"
     ++ Go.byte1 spec.LF, None)
  /\ spec.readCSV (fst (formatter.csv.Format examples.noteCSV ""
                          examples.noteEntry))
     = Some [["INFO"; q ++ "two words" ++ q; ""; "7"]].
Proof. split; reflexivity. Qed.

(** C9.  For every entry and every configuration of the CSV formatter, the
    output of [Format] is the same whether [IncludeHeader] is true or
    false, and it is the one record of the entry: no header row is
    written. *)
Theorem csv_Format_ignores_IncludeHeader :
  forall (includeHeader : bool) (fieldOrder : list string)
         (timestampFormat : string) (buf : string) (entry : core.LogEntry),
    let f b := {| formatter.csv.IncludeHeader := b;
                  formatter.csv.FieldOrder := fieldOrder;
                  formatter.csv.TimestampFormat := timestampFormat |} in
    formatter.csv.Format (f true) buf entry
    = formatter.csv.Format (f false) buf entry
    /\ formatter.csv.Format (f includeHeader) buf entry
       = (buf ++ spec.csvRecord
                   (List.map (spec.column (f includeHeader) entry) fieldOrder),
          None).
Proof.
  intros includeHeader fieldOrder timestampFormat buf entry f.
  rewrite !csv_Format_record. split; reflexivity.
Qed.

(** ** The JSON formatter *)

Lemma json_Format_maskingOff (f : formatter.json.JSONFormatter)
    (buf : string) (entry : core.LogEntry) :
  formatter.json.Format f buf entry
  = formatter.json.Format (examples.maskingOff f) buf entry.
Proof. destruct f. reflexivity. Qed.

(** The formatter on an event at INFO with the fields [user_id = 123] and
    [action = login]. *)
Example json_Format_login :
  let entry := examples.entryWith "ok"
                 [("user_id", core.VInt 123);
                  ("action", core.VString "login")] in
  let out := fst (formatter.json.Format formatter.json.NewJSONFormatter ""
                    entry) in
  Go.Contains out (Go.byte1 Go.dq ++ "user_id" ++ Go.byte1 Go.dq ++ ":123")
  = true
  /\ Go.Contains out (Go.byte1 Go.dq ++ "action" ++ Go.byte1 Go.dq ++ ":"
                      ++ Go.byte1 Go.dq ++ "login" ++ Go.byte1 Go.dq)
     = true.
Proof. split; vm_compute; reflexivity. Qed.

Lemma escapeJSON_append (data : string) :
  forall buf,
    formatter.json.escapeJSON buf data
    = buf ++ formatter.json.escapeJSON "" data.
Proof.
  induction data as [|b data IH]; intros buf;
    cbn [formatter.json.escapeJSON].
  - now rewrite append_nil_r.
  - rewrite IH, (IH (formatter.json.escapeByte "" b)), <- append_assoc.
    f_equal. unfold formatter.json.escapeByte, Go.Write, Go.WriteByte.
    repeat match goal with
           | |- context [if ?c then _ else _] => destruct c
           end; cbn [append]; now rewrite ?append_assoc.
Qed.

Lemma unescapeJSON_escapeByte (b : ascii) (rest : string) :
  spec.unescapeJSON (formatter.json.escapeByte "" b ++ rest)
  = option_map (String b) (spec.unescapeJSON rest).
Proof.
  destruct b as [[] [] [] [] [] [] [] []]; reflexivity.
Qed.

(** The bytes [escapeJSON] writes for a message or a string value read back
    as the inside of a JSON string are the bytes it was given, whatever
    quotes, backslashes and control bytes they hold. *)
Lemma unescapeJSON_escapeJSON (data : string) :
  spec.unescapeJSON (formatter.json.escapeJSON "" data) = Some data.
Proof.
  induction data as [|b data IH]; [reflexivity|].
  cbn [formatter.json.escapeJSON]. rewrite escapeJSON_append.
  now rewrite unescapeJSON_escapeByte, IH.
Qed.

(** C1, at the failing input.  With [MaskSensitiveData] set and [password]
    among the [SensitiveFields], the JSON formatter writes the true content
    of the field [password] and not the mask; so does the CSV formatter,
    which has no masking option at all.  For every entry the JSON output is
    the one produced with masking switched off. *)
Theorem Format_writes_sensitive_field_unmasked :
  let json := fst (formatter.json.Format examples.maskingJSON ""
                     examples.loginEntry) in
  let csv := fst (formatter.csv.Format examples.passwordCSV ""
                    examples.loginEntry) in
  formatter.json.MaskSensitiveData examples.maskingJSON = true
  /\ formatter.json.isSensitive examples.maskingJSON "password" = true
  /\ Go.Contains json "hunter2" = true
  /\ Go.Contains json "[MASKED]" = false
  /\ Go.Contains csv "hunter2" = true
  /\ Go.Contains csv "[MASKED]" = false
  /\ (forall f buf entry,
        formatter.json.Format f buf entry
        = formatter.json.Format (examples.maskingOff f) buf entry).
Proof.
  cbv zeta.
  do 6 (split; [vm_compute; reflexivity|]).
  apply json_Format_maskingOff.
Qed.

(** C3, at the failing input.  A field name is written between quotes as it
    is, so the entry with the fields [a] and [b] and the entry with the one
    field named a, quote, colon, 1, comma, quote, b are formatted to the same
    bytes: no parser gives back the fields of both. *)
Theorem json_Format_field_name_not_escaped :
  formatter.json.Format formatter.json.NewJSONFormatter "" examples.twoFields
  = formatter.json.Format formatter.json.NewJSONFormatter "" examples.oneField
  /\ Go.keys (core.Fields examples.twoFields) = ["a"; "b"]
  /\ Go.keys (core.Fields examples.oneField) = [examples.quotedName]
  /\ (forall (V : Type) (parse : string -> option V)
             (fieldsOf : core.LogEntry -> V),
        fieldsOf examples.twoFields <> fieldsOf examples.oneField ->
        ~ (forall entry,
             parse (fst (formatter.json.Format formatter.json.NewJSONFormatter
                           "" entry))
             = Some (fieldsOf entry))).
Proof.
  assert (E : formatter.json.Format formatter.json.NewJSONFormatter ""
                examples.twoFields
              = formatter.json.Format formatter.json.NewJSONFormatter ""
                  examples.oneField) by (vm_compute; reflexivity).
  split; [exact E|]. do 2 (split; [reflexivity|]).
  intros V parse fieldsOf Hne Hall.
  pose proof (Hall examples.twoFields) as H1.
  pose proof (Hall examples.oneField) as H2.
  rewrite E in H1. rewrite H1 in H2. injection H2 as H2. now apply Hne.
Qed.

(** ** The external hook *)

(** C7.  [NewExternalHook] returns an error and no hook exactly when the
    endpoint is the empty string.  For every other endpoint it returns a
    hook and no error; the hook has the given endpoint, [maxRetries] 3 when
    the given number is not positive and the given number otherwise, and
    timeout ten seconds when the given timeout is not positive and the given
    timeout otherwise. *)
Theorem NewExternalHook_spec :
  forall (endpoint : string) (maxRetries timeout : Z),
    let r := hook.NewExternalHook endpoint maxRetries timeout in
    (endpoint = "" <-> fst r = None /\ snd r <> None)
    /\ (endpoint = "" <-> snd r <> None)
    /\ (endpoint <> "" ->
        exists h,
          fst r = Some h /\ snd r = None
          /\ hook.endpoint h = endpoint
          /\ (maxRetries <= 0 -> hook.maxRetries h = 3)
          /\ (0 < maxRetries -> hook.maxRetries h = maxRetries)
          /\ (timeout <= 0 -> hook.timeout h = 10 * hook.Second)
          /\ (0 < timeout -> hook.timeout h = timeout)
          /\ hook.Timeout (hook.client h) = hook.timeout h).
Proof.
  intros endpoint maxRetries timeout r. subst r. unfold hook.NewExternalHook.
  destruct (String.eqb_spec endpoint "") as [->|Hne]; cbn [fst snd].
  - split; [|split]; try (intros H; now contradiction H).
    + split; [intros _; split; [reflexivity | discriminate] | reflexivity].
    + split; [intros _; discriminate | reflexivity].
  - split; [|split].
    + split; [intros H; contradiction | intros [H _]; discriminate].
    + split; [intros H; contradiction | intros H; now contradiction H].
    + intros _. eexists. split; [reflexivity|]. cbn.
      repeat split; try reflexivity; intros H.
      * destruct (Z.leb_spec maxRetries 0); [reflexivity | lia].
      * destruct (Z.leb_spec maxRetries 0); [lia | reflexivity].
      * destruct (Z.leb_spec timeout 0); [reflexivity | lia].
      * destruct (Z.leb_spec timeout 0); [lia | reflexivity].
Qed.

Lemma posts_app_Post (trace : list hook.Event) (attempt : Z) :
  hook.posts (trace ++ [hook.Post attempt]) = hook.posts trace + 1.
Proof.
  unfold hook.posts. rewrite filter_app, length_app. cbn. lia.
Qed.

Lemma posts_backoff (h : hook.ExternalHook) (attempt : Z)
    (trace : list hook.Event) :
  hook.posts (hook.backoff h attempt trace) = hook.posts trace.
Proof.
  unfold hook.backoff, hook.posts.
  destruct (attempt <? hook.maxRetries h - 1); [|reflexivity].
  rewrite filter_app, length_app. cbn. lia.
Qed.

Lemma succeeds_failure (attempt : Z) (o : hook.Outcome) :
  spec.succeeds o -> spec.failure attempt o = None.
Proof.
  intros (c & -> & Hc). cbn.
  destruct (Z.leb_spec 200 c); destruct (Z.ltb_spec c 300);
    try lia; reflexivity.
Qed.

Lemma fireLoop_spec (h : hook.ExternalHook) (net : Z -> hook.Outcome) :
  forall (fuel : nat) (attempt : Z) (lastErr : option Go.error)
         (trace : list hook.Event),
    attempt + Z.of_nat fuel = hook.maxRetries h ->
    hook.posts trace = attempt ->
    (forall i, 0 <= i < attempt -> ~ spec.succeeds (net i)) ->
    let r := hook.fireLoop h net fuel attempt lastErr trace in
    attempt <= hook.posts (snd r) <= hook.maxRetries h
    /\ (fst r = None ->
        spec.succeeds (net (hook.posts (snd r) - 1))
        /\ attempt < hook.posts (snd r))
    /\ (fst r <> None ->
        forall i, 0 <= i < hook.posts (snd r) -> ~ spec.succeeds (net i))
    /\ ((forall i, attempt <= i < hook.maxRetries h ->
           spec.failure i (net i) <> None) ->
        hook.posts (snd r) = hook.maxRetries h
        /\ (fuel = O ->
            fst r = match lastErr with
                    | Some e => Some (spec.exhausted h e)
                    | None => fst r
                    end)
        /\ (fuel <> O ->
            exists e,
              spec.failure (hook.maxRetries h - 1)
                (net (hook.maxRetries h - 1)) = Some e
              /\ fst r = Some (spec.exhausted h e))).
Proof.
  induction fuel as [|fuel IH]; intros attempt lastErr trace Hfuel Hposts Hprev.
  - cbn [hook.fireLoop]. destruct lastErr as [e|]; cbn [fst snd];
      (split; [lia|]); (split; [discriminate|]);
      (split; [intros _ i Hi; apply Hprev; lia|]);
      intros _; (split; [lia|]); (split; [reflexivity | congruence]).
  - cbn [hook.fireLoop].
    assert (Hlast : fuel = O -> attempt = hook.maxRetries h - 1) by lia.
    destruct (net attempt) as [err|err|c] eqn:Hnet.
    + cbn [fst snd]. split; [lia|]. split; [discriminate|].
      split; [intros _ i Hi; apply Hprev; lia|].
      intros Hall. exfalso. apply (Hall attempt); [lia|].
      now rewrite Hnet.
    + set (lastErr' := Go.Errorf_w _ err).
      assert (Hf : spec.failure attempt (net attempt) = Some lastErr')
        by now rewrite Hnet.
      specialize (IH (attempt + 1) (Some lastErr')
                    (hook.backoff h attempt (trace ++ [hook.Post attempt]))).
      destruct IH as (IH1 & IH2 & IH3 & IH4);
        [lia | rewrite posts_backoff, posts_app_Post; lia | |].
      { intros i Hi. destruct (Z.eq_dec i attempt) as [->|Hne].
        - intros Hs. apply (succeeds_failure attempt) in Hs. congruence.
        - apply Hprev. lia. }
      split; [lia|]. split; [intros H; destruct (IH2 H); split; [assumption|lia]|].
      split; [assumption|].
      intros Hall. destruct IH4 as (P1 & P2 & P3); [intros i Hi; apply Hall; lia|].
      split; [assumption|]. split; [discriminate|]. intros _.
      destruct fuel as [|fuel'].
      * exists lastErr'. rewrite <- (Hlast eq_refl). split; [assumption|].
        now apply P2.
      * apply P3. discriminate.
    + destruct ((200 <=? c) && (c <? 300)) eqn:Hc.
      * cbn [fst snd]. rewrite posts_app_Post.
        assert (Hs : spec.succeeds (net attempt)).
        { rewrite Hnet. exists c. split; [reflexivity|].
          apply andb_true_iff in Hc. destruct Hc as [H1 H2].
          apply Z.leb_le in H1. apply Z.ltb_lt in H2. lia. }
        split; [lia|]. split.
        { intros _. rewrite Hposts. replace (attempt + 1 - 1) with attempt by lia.
          split; [assumption | lia]. }
        split; [intros H; now contradiction H|].
        intros Hall. exfalso. apply (Hall attempt); [lia|].
        now apply succeeds_failure.
      * set (lastErr' := Go.errorString _).
        assert (Hf : spec.failure attempt (net attempt) = Some lastErr')
          by (rewrite Hnet; cbn [spec.failure]; now rewrite Hc).
        specialize (IH (attempt + 1) (Some lastErr')
                      (hook.backoff h attempt (trace ++ [hook.Post attempt]))).
        destruct IH as (IH1 & IH2 & IH3 & IH4);
          [lia | rewrite posts_backoff, posts_app_Post; lia | |].
        { intros i Hi. destruct (Z.eq_dec i attempt) as [->|Hne].
          - intros Hs. apply (succeeds_failure attempt) in Hs. congruence.
          - apply Hprev. lia. }
        split; [lia|].
        split; [intros H; destruct (IH2 H); split; [assumption|lia]|].
        split; [assumption|].
        intros Hall.
        destruct IH4 as (P1 & P2 & P3); [intros i Hi; apply Hall; lia|].
        split; [assumption|]. split; [discriminate|]. intros _.
        destruct fuel as [|fuel'].
        -- exists lastErr'. rewrite <- (Hlast eq_refl). split; [assumption|].
           now apply P2.
        -- apply P3. discriminate.
Qed.

(** C10.  For every hook with [maxRetries = r > 0], [Fire] makes at most
    [r] HTTP POST attempts and ends; it returns nil exactly when one of the
    attempts made gets a response whose status is in [200, 300); and when
    all [r] attempts fail it makes [r] attempts and returns an error that
    wraps the failure of the last attempt. *)
Theorem Fire_retries :
  forall (h : hook.ExternalHook) (marshal : string + Go.error)
         (net : Z -> hook.Outcome),
    0 < hook.maxRetries h ->
    let r := hook.Fire h marshal net in
    hook.posts (snd r) <= hook.maxRetries h
    /\ (fst r = None <->
        exists i, 0 <= i < hook.posts (snd r) /\ spec.succeeds (net i))
    /\ (forall payload,
          marshal = inl payload ->
          (forall i, 0 <= i < hook.maxRetries h ->
             spec.failure i (net i) <> None) ->
          hook.posts (snd r) = hook.maxRetries h
          /\ exists e,
               spec.failure (hook.maxRetries h - 1)
                 (net (hook.maxRetries h - 1)) = Some e
               /\ fst r = Some (spec.exhausted h e)
               /\ Go.Unwrap (spec.exhausted h e) = Some e).
Proof.
  intros h marshal net Hr r. subst r. unfold hook.Fire.
  destruct marshal as [payload|err].
  - destruct (fireLoop_spec h net (Z.to_nat (hook.maxRetries h)) 0 None [])
      as (H1 & H2 & H3 & H4); [lia | reflexivity | intros i Hi; lia |].
    split; [lia|]. split.
    + split.
      * intros Hnil. destruct (H2 Hnil) as [Hs Hlt].
        exists (hook.posts
                  (snd (hook.fireLoop h net (Z.to_nat (hook.maxRetries h))
                          0 None [])) - 1).
        split; [lia | assumption].
      * intros (i & Hi & Hs).
        destruct (fst (hook.fireLoop h net (Z.to_nat (hook.maxRetries h))
                         0 None [])) as [e|] eqn:E; [|reflexivity].
        exfalso. apply (H3 ltac:(discriminate) i Hi Hs).
    + intros payload' _ Hall.
      destruct H4 as (P1 & _ & P3); [intros i Hi; apply Hall; lia|].
      split; [assumption|].
      destruct P3 as (e & He & Hres); [lia|].
      exists e. repeat split; assumption.
  - cbn [fst snd]. split; [cbn; lia|]. split.
    + split; [discriminate|]. intros (i & Hi & _). cbn in Hi. lia.
    + intros payload Hp. discriminate Hp.
Qed.

Lemma Fire_retries_witness :
  0 < hook.maxRetries examples.hook3 /\
  hook.posts (snd (hook.Fire examples.hook3 (inl "{}") examples.flaky))
  <= hook.maxRetries examples.hook3.
Proof.
  assert (H : 0 < hook.maxRetries examples.hook3) by (cbn; lia).
  split; [exact H|].
  exact (proj1 (Fire_retries examples.hook3 (inl "{}") examples.flaky H)).
Defined.

(** ** The sampler *)

Lemma int64_small (x : Z) : - 2 ^ 63 <= x < 2 ^ 63 -> sampler.int64 x = x.
Proof.
  intros Hx. unfold sampler.int64.
  rewrite Z.mod_small by lia. lia.
Qed.

Lemma int64_add_l (a b : Z) :
  sampler.int64 (sampler.int64 a + b) = sampler.int64 (a + b).
Proof.
  unfold sampler.int64.
  replace ((a + 2 ^ 63) mod 2 ^ 64 - 2 ^ 63 + b + 2 ^ 63)
    with ((a + 2 ^ 63) mod 2 ^ 64 + b) by lia.
  rewrite Zplus_mod_idemp_l. f_equal. f_equal. lia.
Qed.

(** After [n] calls on a sampler with a rate above 1 the counter is the
    number of calls, wrapped to 64 bits. *)
Lemma afterCalls_counter (p : list sampler.LogCall) (r : Z) (n : N) :
  1 < r ->
  sampler.afterCalls (sampler.NewSampler p r) n
  = {| sampler.processor := p; sampler.rate := r;
       sampler.counter := sampler.int64 (Z.of_N n) |}.
Proof.
  intros Hr. unfold sampler.afterCalls.
  induction n as [|n IH] using N.peano_ind.
  - reflexivity.
  - rewrite N.iter_succ, IH. unfold sampler.ShouldLog.
    cbn [sampler.rate sampler.counter sampler.processor].
    destruct (Z.leb_spec r 1); [lia|]. cbn [snd].
    unfold sampler.AddInt64. rewrite int64_add_l.
    now rewrite N2Z.inj_succ.
Qed.

Lemma kthCall_counter (r : Z) (k : N) :
  1 < r -> (1 <= k)%N ->
  sampler.kthCall r k = (Z.rem (sampler.int64 (Z.of_N k)) r =? 0).
Proof.
  intros Hr Hk. unfold sampler.kthCall.
  rewrite afterCalls_counter by assumption. unfold sampler.ShouldLog.
  cbn [sampler.rate sampler.counter sampler.processor].
  destruct (Z.leb_spec r 1); [lia|]. cbn [fst].
  unfold sampler.AddInt64. rewrite int64_add_l.
  replace (Z.of_N (N.pred k) + 1) with (Z.of_N k) by lia.
  reflexivity.
Qed.

Lemma kthCall_multiple (r : Z) (k : N) :
  1 < r -> 1 <= Z.of_N k < 2 ^ 63 ->
  (sampler.kthCall r k = true <-> Z.of_N k mod r = 0).
Proof.
  intros Hr Hk. rewrite kthCall_counter by lia.
  rewrite int64_small by lia.
  rewrite Z.rem_mod_nonneg by lia. apply Z.eqb_eq.
Qed.

Lemma multiple_in_window (r k : Z) :
  1 < r -> 0 <= k ->
  exists j, k < j <= k + r /\ j mod r = 0
            /\ forall j', k < j' <= k + r -> j' mod r = 0 -> j' = j.
Proof.
  intros Hr Hk. exists (r * (k / r + 1)).
  pose proof (Z.div_mod k r ltac:(lia)) as Hdm.
  pose proof (Z.mod_pos_bound k r ltac:(lia)) as Hb.
  split; [nia|]. split.
  - rewrite Z.mul_comm. apply Z_mod_mult.
  - intros j' Hj' Hm. apply Z.mod_divide in Hm; [|lia].
    destruct Hm as [q ->].
    remember (k / r) as d. remember (k mod r) as m.
    assert (d < q) by nia. assert (q < d + 2) by nia.
    replace q with (d + 1) by lia. lia.
Qed.

(** C5, as amended.  A sampler with rate [r <= 1] answers true at every
    call.  With [r > 1], call number [k] (from 1, one caller) on a new
    sampler answers true exactly when [k] is a multiple of [r], for every
    [k] below 2^63, the range of the 64-bit counter; so among any [r]
    consecutive calls in that range exactly one answers true.  [Log] passes
    the event to the wrapped processor exactly when [ShouldLog] answers
    true. *)
Theorem ShouldLog_sampling :
  forall r : Z,
    (r <= 1 ->
       forall ls, sampler.rate ls = r ->
                  sampler.ShouldLog ls = (true, ls))
    /\ (1 < r ->
        forall k : N, 1 <= Z.of_N k < 2 ^ 63 ->
          (sampler.kthCall r k = true <-> Z.of_N k mod r = 0))
    /\ (1 < r ->
        forall k : N, Z.of_N k + r < 2 ^ 63 ->
          exists j : N,
            (Z.of_N k < Z.of_N j <= Z.of_N k + r
             /\ sampler.kthCall r j = true)
            /\ forall j' : N,
                 Z.of_N k < Z.of_N j' <= Z.of_N k + r ->
                 sampler.kthCall r j' = true -> j' = j)
    /\ (forall ls level msg fields,
          let ls' := sampler.Log ls level msg fields in
          (fst (sampler.ShouldLog ls) = true ->
             sampler.processor ls'
             = (sampler.processor ls ++ [(level, msg, fields)])%list)
          /\ (fst (sampler.ShouldLog ls) = false ->
                sampler.processor ls' = sampler.processor ls)
          /\ sampler.counter ls' = sampler.counter (snd (sampler.ShouldLog ls))).
Proof.
  intros r. split; [|split; [|split]].
  - intros Hr ls <-. unfold sampler.ShouldLog.
    destruct (Z.leb_spec (sampler.rate ls) 1); [reflexivity | lia].
  - intros Hr k Hk. now apply kthCall_multiple.
  - intros Hr k Hk.
    destruct (multiple_in_window r (Z.of_N k) Hr ltac:(lia))
      as (j & Hj & Hm & Huniq).
    exists (Z.to_N j). rewrite Z2N.id by lia. split.
    + split; [assumption|]. apply kthCall_multiple; [assumption | |];
        rewrite Z2N.id by lia; [lia | assumption].
    + intros j' Hj' Hc. apply kthCall_multiple in Hc; [|assumption|lia].
      apply N2Z.inj. rewrite Z2N.id by lia. now apply Huniq.
  - intros ls level msg fields ls'. subst ls'. unfold sampler.Log.
    destruct (sampler.ShouldLog ls) as [ok s] eqn:E. cbn [fst snd].
    assert (Hp : sampler.processor s = sampler.processor ls).
    { unfold sampler.ShouldLog in E.
      destruct (sampler.rate ls <=? 1); injection E as _ <-; reflexivity. }
    destruct ok; cbn; rewrite ?Hp; repeat split; congruence.
Qed.

(** C5, as first stated, fails once the 64-bit counter has wrapped around:
    with rate 3, call number 2^63 + 1 is a multiple of 3 and answers
    false. *)
Lemma ShouldLog_after_wraparound :
  1 < 3 /\ (Z.of_N 9223372036854775809) mod 3 = 0
  /\ sampler.kthCall 3 9223372036854775809 = false.
Proof.
  split; [lia|]. split; [reflexivity|].
  rewrite kthCall_counter by lia. reflexivity.
Qed.

(** ** The dispatch core *)

(** C2.  For all severities [s1 < s2], when the threshold of the Level Gate
    is [s2], an [emit] at [s1] is filtered: the Logger is left as it was, so
    no Record is acquired from the pool and the Writer is not called. *)
Theorem emit_below_threshold :
  forall (l : logger.Logger) (s1 s2 : core.Level) (message : string),
    core.Level_rank s1 < core.Level_rank s2 ->
    logger.threshold l = s2 ->
    let r := logger.emit l s1 message in
    r = (l, logger.Filtered)
    /\ logger.acquired (fst r) = logger.acquired l
    /\ logger.writerCalls (fst r) = logger.writerCalls l
    /\ logger.queue (fst r) = logger.queue l.
Proof.
  intros l s1 s2 message Hlt Hth r. subst r.
  unfold logger.emit, logger.enabled. rewrite Hth.
  destruct (Z.leb_spec (core.Level_rank s2) (core.Level_rank s1)); [lia|].
  cbn. repeat split.
Qed.

Lemma emit_below_threshold_witness :
  core.Level_rank core.DEBUG < core.Level_rank core.INFO /\
  logger.threshold examples.syncLogger = core.INFO /\
  logger.emit examples.syncLogger core.DEBUG "debugging"
  = (examples.syncLogger, logger.Filtered).
Proof.
  split; [reflexivity|]. split; [reflexivity|].
  exact (proj1 (emit_below_threshold examples.syncLogger
                  core.DEBUG core.INFO "debugging" eq_refl eq_refl)).
Defined.

(* ================================================================== *)
(** * Part III: further properties of the code                        *)
(* ================================================================== *)

(** ** [escapeJSON] *)

Lemma allBytes_append (p : ascii -> bool) (a b : string) :
  spec.allBytes p (a ++ b) = spec.allBytes p a && spec.allBytes p b.
Proof.
  induction a as [|c a IH]; cbn [append spec.allBytes]; [reflexivity|].
  now rewrite IH, andb_assoc.
Qed.

Lemma escapeJSON_cons (b : ascii) (data : string) :
  formatter.json.escapeJSON "" (String b data)
  = formatter.json.escapeByte "" b ++ formatter.json.escapeJSON "" data.
Proof. cbn [formatter.json.escapeJSON]. apply escapeJSON_append. Qed.

Lemma escapeByte_printable (b : ascii) :
  spec.allBytes spec.printable (formatter.json.escapeByte "" b) = true.
Proof. destruct b as [[] [] [] [] [] [] [] []]; reflexivity. Qed.

Lemma escapeByte_length (b : ascii) :
  (1 <= String.length (formatter.json.escapeByte "" b) <= 6)%nat.
Proof. destruct b as [[] [] [] [] [] [] [] []]; cbn; lia. Qed.

Lemma escapeByte_plain (b : ascii) :
  spec.plainByte b = true -> formatter.json.escapeByte "" b = Go.byte1 b.
Proof.
  destruct b as [[] [] [] [] [] [] [] []]; cbn; intros H;
    try discriminate H; reflexivity.
Qed.

Lemma escapeByte_not_plain (b : ascii) :
  spec.plainByte b = false ->
  (2 <= String.length (formatter.json.escapeByte "" b))%nat.
Proof.
  destruct b as [[] [] [] [] [] [] [] []]; cbn; intros H;
    try discriminate H; lia.
Qed.

Lemma escapeJSON_length (data : string) :
  (String.length data
   <= String.length (formatter.json.escapeJSON "" data)
   <= 6 * String.length data)%nat.
Proof.
  induction data as [|b data IH]; [cbn; lia|].
  rewrite escapeJSON_cons, length_append.
  pose proof (escapeByte_length b). cbn [String.length]. lia.
Qed.

(** X1.  Whatever bytes a message or a string value holds (quotes,
    backslashes, control bytes), what [escapeJSON] appends to the buffer
    reads back, as the inside of a JSON string, to exactly those bytes; so
    two different byte strings are never escaped to the same bytes. *)
Theorem escapeJSON_roundtrip :
  forall buf data : string,
    exists escaped,
      formatter.json.escapeJSON buf data = buf ++ escaped
      /\ spec.unescapeJSON escaped = Some data
      /\ (forall data',
            formatter.json.escapeJSON buf data'
            = formatter.json.escapeJSON buf data -> data' = data).
Proof.
  intros buf data. exists (formatter.json.escapeJSON "" data).
  split; [apply escapeJSON_append|]. split; [apply unescapeJSON_escapeJSON|].
  intros data' H. rewrite (escapeJSON_append data'), (escapeJSON_append data) in H.
  apply (f_equal (fun s => spec.unescapeJSON
                             (substring (String.length buf)
                                (String.length s - String.length buf) s))) in H.
  assert (Hsub : forall e, substring (String.length buf)
                   (String.length (buf ++ e) - String.length buf) (buf ++ e)
                 = e).
  { intros e. rewrite length_append.
    replace (String.length buf + String.length e - String.length buf)%nat
      with (String.length e) by lia.
    clear. induction buf as [|c buf IH]; cbn.
    - induction e as [|c e IH]; cbn; [reflexivity | now rewrite IH].
    - exact IH. }
  rewrite !Hsub, !unescapeJSON_escapeJSON in H. now injection H.
Qed.

(** X2.  The bytes [escapeJSON] writes hold no control byte: every byte is
    32 or above, so an escaped message never carries a raw newline, tab or
    NUL into the output line. *)
Theorem escapeJSON_no_control_byte :
  forall data : string,
    spec.allBytes spec.printable (formatter.json.escapeJSON "" data) = true.
Proof.
  induction data as [|b data IH]; [reflexivity|].
  now rewrite escapeJSON_cons, allBytes_append, escapeByte_printable, IH.
Qed.

(** X3.  [escapeJSON] writes at least one byte and at most six bytes for
    each byte of its input. *)
Theorem escapeJSON_length_bounds :
  forall buf data : string,
    (String.length buf + String.length data
     <= String.length (formatter.json.escapeJSON buf data)
     <= String.length buf + 6 * String.length data)%nat.
Proof.
  intros buf data. rewrite escapeJSON_append, length_append.
  pose proof (escapeJSON_length data). lia.
Qed.

(** X4.  Escaping in pieces is escaping the whole: [escapeJSON] on the
    concatenation of two byte strings writes what it writes for the first
    followed by what it writes for the second, after the bytes already in
    the buffer, which it leaves as they are. *)
Theorem escapeJSON_concat :
  forall buf a b : string,
    formatter.json.escapeJSON buf (a ++ b)
    = formatter.json.escapeJSON (formatter.json.escapeJSON buf a) b
    /\ formatter.json.escapeJSON buf (a ++ b)
       = buf ++ formatter.json.escapeJSON "" a
             ++ formatter.json.escapeJSON "" b.
Proof.
  intros buf a b.
  assert (H : formatter.json.escapeJSON buf (a ++ b)
              = formatter.json.escapeJSON (formatter.json.escapeJSON buf a) b).
  { revert buf. induction a as [|c a IH]; intros buf; [reflexivity|].
    cbn [append formatter.json.escapeJSON]. apply IH. }
  split; [exact H|].
  rewrite H, (escapeJSON_append b), (escapeJSON_append a).
  apply append_assoc.
Qed.

Lemma escapeJSON_plain (data : string) :
  spec.allBytes spec.plainByte data = true ->
  formatter.json.escapeJSON "" data = data.
Proof.
  induction data as [|b data IH]; [reflexivity|].
  cbn [spec.allBytes]. intros H. apply andb_true_iff in H.
  destruct H as [Hb Hd].
  rewrite escapeJSON_cons, (escapeByte_plain b Hb), (IH Hd). reflexivity.
Qed.

(** X5.  [escapeJSON] writes its input unchanged exactly when the input
    holds no control byte, no quote and no backslash. *)
Theorem escapeJSON_identity_iff_plain :
  forall data : string,
    formatter.json.escapeJSON "" data = data
    <-> spec.allBytes spec.plainByte data = true.
Proof.
  intros data. split.
  - induction data as [|b data IH]; [reflexivity|].
    rewrite escapeJSON_cons. intros H. cbn [spec.allBytes].
    destruct (spec.plainByte b) eqn:Hb.
    + rewrite (escapeByte_plain b Hb) in H. cbn in H.
      injection H as H. now rewrite IH.
    + exfalso. apply (f_equal String.length) in H.
      rewrite length_append in H. cbn [String.length] in H.
      pose proof (escapeByte_not_plain b Hb).
      pose proof (escapeJSON_length data). lia.
  - apply escapeJSON_plain.
Qed.

(** ** [formatJSONValue] *)

Lemma splitLast_append (a : string) (c : ascii) :
  spec.splitLast (a ++ Go.byte1 c) = Some (a, c).
Proof.
  induction a as [|x a IH]; [reflexivity|].
  cbn [append spec.splitLast]. now rewrite IH.
Qed.

Lemma uint_digits_plain (d : Decimal.uint) :
  spec.allBytes spec.plainByte (NilEmpty.string_of_uint d) = true.
Proof. induction d; cbn; try reflexivity; exact IHd. Qed.

Lemma FormatInt_plain (z : Z) :
  spec.allBytes spec.plainByte (Go.FormatInt z) = true.
Proof.
  unfold Go.FormatInt. destruct (Z.to_int z) as [d|d]; cbn.
  - destruct d; try reflexivity; apply (uint_digits_plain (_ d)).
  - destruct d; try reflexivity; apply (uint_digits_plain (_ d)).
Qed.

Lemma FormatInt_head (z : Z) :
  exists c rest, Go.FormatInt z = String c rest /\ Ascii.eqb c Go.dq = false.
Proof.
  unfold Go.FormatInt. destruct (Z.to_int z) as [d|d]; cbn.
  - destruct d; cbn; eexists; eexists; split; reflexivity.
  - eexists; eexists; split; reflexivity.
Qed.

Lemma parseInt_FormatInt (z : Z) : spec.parseInt (Go.FormatInt z) = Some z.
Proof.
  unfold spec.parseInt, Go.FormatInt.
  rewrite NilZero.isi.
  - cbn. now rewrite DecimalZ.of_to.
  - intros H. pose proof (DecimalZ.of_to z) as E. rewrite H in E.
    cbn in E. subst z. discriminate H.
  - intros H. pose proof (DecimalZ.of_to z) as E. rewrite H in E.
    cbn in E. subst z. discriminate H.
Qed.

Lemma escapeJSON_FormatInt (z : Z) :
  formatter.json.escapeJSON "" (Go.FormatInt z) = Go.FormatInt z.
Proof. apply escapeJSON_plain, FormatInt_plain. Qed.

Lemma formatJSONValue_append (buf : string) (v : core.Value) :
  formatter.json.formatJSONValue buf v
  = buf ++ formatter.json.formatJSONValue "" v.
Proof.
  assert (Hs : forall s,
             Go.WriteByte (formatter.json.escapeJSON (Go.WriteByte buf Go.dq) s)
               Go.dq
             = buf ++ Go.WriteByte
                        (formatter.json.escapeJSON (Go.WriteByte "" Go.dq) s)
                        Go.dq).
  { intros s. unfold Go.WriteByte.
    rewrite (escapeJSON_append s (buf ++ _)), (escapeJSON_append s ("" ++ _)).
    cbn [append]. now rewrite !append_assoc. }
  destruct v as [v|v|v|v|v|v|v|v|v|v|v|v|v|v|v| |v| ];
    cbn [formatter.json.formatJSONValue core.S2b]; try apply Hs;
    try reflexivity.
  destruct v; reflexivity.
Qed.

Lemma formatJSONValue_string (s : string) :
  formatter.json.formatJSONValue "" (core.VString s)
  = String Go.dq (formatter.json.escapeJSON "" s ++ Go.byte1 Go.dq).
Proof.
  cbn [formatter.json.formatJSONValue core.S2b]. unfold Go.WriteByte.
  now rewrite escapeJSON_append.
Qed.

Lemma readScalar_quoted (s : string) :
  spec.readScalar
    (String Go.dq (formatter.json.escapeJSON "" s ++ Go.byte1 Go.dq))
  = Some (spec.JString s).
Proof.
  cbn [spec.readScalar]. rewrite Ascii.eqb_refl, splitLast_append.
  now rewrite Ascii.eqb_refl, unescapeJSON_escapeJSON.
Qed.

Lemma readScalar_FormatInt (z : Z) :
  spec.readScalar (Go.FormatInt z) = Some (spec.JNumber z).
Proof.
  destruct (FormatInt_head z) as (c & rest & E & Hc).
  pose proof (parseInt_FormatInt z) as P. rewrite E in *.
  cbn [spec.readScalar]. now rewrite Hc, P.
Qed.

(** X6.  A field value that is a string, a byte slice, an [int], an
    [int64], a boolean or nil is written by [formatJSONValue] so that it
    reads back to the same scalar: the string with its quotes, backslashes
    and control bytes, the integer, the boolean, or null. *)
Theorem formatJSONValue_roundtrip :
  forall (buf : string) (v : core.Value) (j : spec.JSONScalar),
    spec.jsonView v = Some j ->
    exists out,
      formatter.json.formatJSONValue buf v = buf ++ out
      /\ spec.readScalar out = Some j.
Proof.
  intros buf v j Hv. exists (formatter.json.formatJSONValue "" v).
  split; [apply formatJSONValue_append|].
  destruct v as [v|v|v|v|v|v|v|v|v|v|v|v|v|v|v| |v| ];
    try discriminate Hv; injection Hv as <-.
  - rewrite formatJSONValue_string. apply readScalar_quoted.
  - change (formatter.json.formatJSONValue "" (core.VBytes v))
      with (formatter.json.formatJSONValue "" (core.VString v)).
    rewrite formatJSONValue_string. apply readScalar_quoted.
  - apply readScalar_FormatInt.
  - apply readScalar_FormatInt.
  - destruct v; reflexivity.
  - reflexivity.
Qed.

Lemma formatJSONValue_roundtrip_witness :
  spec.jsonView (core.VString examples.quotedName)
  = Some (spec.JString examples.quotedName)
  /\ exists out,
       formatter.json.formatJSONValue "{" (core.VString examples.quotedName)
       = "{" ++ out
       /\ spec.readScalar out = Some (spec.JString examples.quotedName).
Proof.
  split; [reflexivity|].
  apply (formatJSONValue_roundtrip "{" (core.VString examples.quotedName)).
  reflexivity.
Defined.

(** X7.  A field value of type [int8], [int16], [int32] or of an unsigned
    integer type is written as a JSON string holding its decimal digits, not
    as a number, so it reads back as a string; an error value, whatever its
    message, and a value of any other type are written as the string
    [<complex-type>]. *)
Theorem formatJSONValue_fallback :
  (forall mk, In mk spec.fallbackIntegers ->
     forall (buf : string) (z : Z),
       formatter.json.formatJSONValue buf (mk z)
       = buf ++ Go.byte1 Go.dq ++ Go.FormatInt z ++ Go.byte1 Go.dq
       /\ spec.readScalar (formatter.json.formatJSONValue "" (mk z))
          = Some (spec.JString (Go.FormatInt z)))
  /\ (forall (buf : string) (e : Go.error),
        formatter.json.formatJSONValue buf (core.VError e)
        = buf ++ Go.byte1 Go.dq ++ "<complex-type>" ++ Go.byte1 Go.dq)
  /\ (forall buf : string,
        formatter.json.formatJSONValue buf core.VOther
        = buf ++ Go.byte1 Go.dq ++ "<complex-type>" ++ Go.byte1 Go.dq).
Proof.
  split; [|split].
  - intros mk Hmk buf z.
    assert (E : formatter.json.formatJSONValue "" (mk z)
                = formatter.json.formatJSONValue ""
                    (core.VString (Go.FormatInt z))).
    { cbn in Hmk.
      repeat (destruct Hmk as [<-|Hmk]; [reflexivity|]). contradiction. }
    rewrite formatJSONValue_append, E, formatJSONValue_string.
    split.
    + now rewrite escapeJSON_FormatInt.
    + apply readScalar_quoted.
  - intros buf e. rewrite formatJSONValue_append. destruct e; reflexivity.
  - intros buf. rewrite formatJSONValue_append. reflexivity.
Qed.

(** ** The JSON formatter, whole entries *)

Lemma FormatTimestamp_append (buf b0 : string) (t : Go.Time) (format : string) :
  forall b, b = buf ++ b0 ->
  util.FormatTimestamp b t format = buf ++ util.FormatTimestamp b0 t format.
Proof.
  intros b ->. unfold util.FormatTimestamp, Go.Write. apply append_assoc.
Qed.

Lemma Write_append (buf b0 p : string) :
  forall b, b = buf ++ b0 -> Go.Write b p = buf ++ Go.Write b0 p.
Proof. intros b ->. apply append_assoc. Qed.

Lemma WriteByte_append (buf b0 : string) (c : ascii) :
  forall b, b = buf ++ b0 -> Go.WriteByte b c = buf ++ Go.WriteByte b0 c.
Proof. intros b ->. apply append_assoc. Qed.

Lemma escapeJSON_append2 (buf b0 data : string) :
  forall b, b = buf ++ b0 ->
  formatter.json.escapeJSON b data = buf ++ formatter.json.escapeJSON b0 data.
Proof.
  intros b ->.
  rewrite (escapeJSON_append data (buf ++ b0)), (escapeJSON_append data b0).
  apply append_assoc.
Qed.

Lemma formatJSONValue_append2 (buf b0 : string) (v : core.Value) :
  forall b, b = buf ++ b0 ->
  formatter.json.formatJSONValue b v
  = buf ++ formatter.json.formatJSONValue b0 v.
Proof.
  intros b ->.
  rewrite (formatJSONValue_append (buf ++ b0)), (formatJSONValue_append b0).
  apply append_assoc.
Qed.

Lemma formatFieldsLoop_append (buf : string) (fields : Go.map core.Value) :
  forall (first : bool) (b0 b : string), b = buf ++ b0 ->
  formatter.json.formatFieldsLoop b fields first
  = buf ++ formatter.json.formatFieldsLoop b0 fields first.
Proof.
  induction fields as [|[k v] fields IH]; intros first b0 b ->;
    cbn [formatter.json.formatFieldsLoop]; [reflexivity|].
  apply IH. apply formatJSONValue_append2. apply Write_append.
  apply Write_append. apply WriteByte_append.
  destruct (negb first); [now apply WriteByte_append | reflexivity].
Qed.

Lemma indent_append (buf : string) (n : nat) :
  forall (b0 b : string), b = buf ++ b0 ->
  formatter.json.indent b n = buf ++ formatter.json.indent b0 n.
Proof.
  induction n as [|n IH]; intros b0 b ->; cbn [formatter.json.indent];
    [reflexivity|].
  apply IH. unfold Go.WriteString. apply append_assoc.
Qed.

Lemma newline_append (buf b0 : string) (n : nat) :
  forall b, b = buf ++ b0 ->
  formatter.json.newline b n = buf ++ formatter.json.newline b0 n.
Proof.
  intros b ->. unfold formatter.json.newline.
  apply indent_append. now apply WriteByte_append.
Qed.

Lemma formatFieldsIndentLoop_append (buf : string)
    (fields : Go.map core.Value) (level : nat) :
  forall (first : bool) (b0 b : string), b = buf ++ b0 ->
  formatter.json.formatFieldsIndentLoop b fields first level
  = buf ++ formatter.json.formatFieldsIndentLoop b0 fields first level.
Proof.
  induction fields as [|[k v] fields IH]; intros first b0 b ->;
    cbn [formatter.json.formatFieldsIndentLoop]; [reflexivity|].
  apply IH. apply formatJSONValue_append2. apply Write_append.
  apply Write_append. apply WriteByte_append. apply newline_append.
  destruct (negb first); [now apply WriteByte_append | reflexivity].
Qed.

(** One step of rewriting [g b = buf ++ g b0] down to [b = buf ++ b0]. *)
Ltac appends :=
  repeat first
    [ reflexivity
    | symmetry; apply append_nil_r
    | apply Write_append
    | apply WriteByte_append
    | apply escapeJSON_append2
    | apply FormatTimestamp_append
    | apply formatFieldsLoop_append
    | apply formatFieldsIndentLoop_append
    | apply newline_append ].

Lemma formatManually_append (f : formatter.json.JSONFormatter)
    (buf : string) (entry : core.LogEntry) :
  formatter.json.formatManually f buf entry
  = (buf ++ fst (formatter.json.formatManually f "" entry), None).
Proof.
  unfold formatter.json.formatManually. cbv zeta. cbn [fst]. f_equal.
  destruct (formatter.json.ShowPID f), (formatter.json.ShowCaller f),
    (core.Caller entry), (0 <? Z.of_nat (List.length (core.Fields entry))),
    (formatter.json.ShowTraceInfo f),
    (negb (String.eqb (core.TraceID entry) "")),
    (negb (String.eqb (core.SpanID entry) "")),
    (negb (String.eqb (core.UserID entry) "")),
    (formatter.json.EnableStackTrace f && (0 <? Go.len (core.StackTrace entry)));
    appends.
Qed.

Lemma formatManuallyWithIndent_append (f : formatter.json.JSONFormatter)
    (buf : string) (entry : core.LogEntry) :
  formatter.json.formatManuallyWithIndent f buf entry
  = (buf ++ fst (formatter.json.formatManuallyWithIndent f "" entry), None).
Proof.
  unfold formatter.json.formatManuallyWithIndent. cbv zeta. cbn [fst pred].
  f_equal.
  destruct (formatter.json.ShowPID f && negb (core.PID entry =? 0)),
    (formatter.json.ShowCaller f),
    (core.Caller entry), (0 <? Z.of_nat (List.length (core.Fields entry))),
    (formatter.json.ShowTraceInfo f),
    (negb (String.eqb (core.TraceID entry) "")),
    (negb (String.eqb (core.SpanID entry) "")),
    (negb (String.eqb (core.UserID entry) "")),
    (formatter.json.EnableStackTrace f && (0 <? Go.len (core.StackTrace entry)));
    appends.
Qed.

(** X8.  [JSONFormatter.Format] never fails and only appends: the bytes
    already in the buffer stay as they are, and what is added for an entry
    does not depend on them, so formatting two entries one after the other
    into one buffer gives the first output followed by the second. *)
Theorem json_Format_appends :
  forall (f : formatter.json.JSONFormatter) (buf : string)
         (entry entry' : core.LogEntry),
    let out e := fst (formatter.json.Format f "" e) in
    formatter.json.Format f buf entry = (buf ++ out entry, None)
    /\ formatter.json.Format f
         (fst (formatter.json.Format f buf entry)) entry'
       = (buf ++ out entry ++ out entry', None).
Proof.
  intros f buf entry entry' out.
  assert (H : forall b e,
             formatter.json.Format f b e = (b ++ out e, None)).
  { intros b e. unfold out, formatter.json.Format,
      formatter.json.formatWithStandardEncoder.
    destruct (formatter.json.PrettyPrint f).
    - apply formatManuallyWithIndent_append.
    - apply formatManually_append. }
  split; [apply H|]. rewrite (H buf entry). cbn [fst].
  rewrite H. now rewrite append_assoc.
Qed.




(** ** [processFields] *)

Lemma isSensitive_In (f : formatter.json.JSONFormatter) (field : string) :
  formatter.json.isSensitive f field = true
  <-> In field (formatter.json.SensitiveFields f).
Proof.
  unfold formatter.json.isSensitive.
  induction (formatter.json.SensitiveFields f) as [|s l IH];
    cbn [formatter.json.isSensitiveLoop In].
  - split; [discriminate | contradiction].
  - destruct (String.eqb_spec field s) as [->|Hne].
    + split; [now left | reflexivity].
    + rewrite IH. split; [now right | intros [E|H]; [congruence | exact H]].
Qed.

Lemma lookup_app_None {V : Type} (m : Go.map V) (k : string) (v : V) :
  Go.lookup m k = None -> Go.store m k v = (m ++ [(k, v)])%list.
Proof. intros H. unfold Go.store. now rewrite H. Qed.

Lemma lookup_In_NoDup {V : Type} (m : Go.map V) (k : string) (v : V) :
  NoDup (Go.keys m) -> In (k, v) m -> Go.lookup m k = Some v.
Proof.
  induction m as [|[k' v'] m IH]; cbn [Go.keys List.map fst Go.lookup In];
    intros Hnd Hin; [contradiction|].
  apply NoDup_cons_iff in Hnd. destruct Hnd as [Hk Hnd].
  destruct Hin as [E|Hin].
  - injection E as -> ->. now rewrite String.eqb_refl.
  - destruct (String.eqb_spec k k') as [->|Hne].
    + exfalso. apply Hk. apply in_map_iff. now exists (k', v).
    + now apply IH.
Qed.

Lemma processFields_map (f : formatter.json.JSONFormatter)
    (fields : Go.map core.Value) :
  NoDup (List.map (spec.renamed f) (Go.keys fields)) ->
  formatter.json.processFields f fields
  = List.map (fun kv => (spec.renamed f (fst kv),
                         spec.processed f (fst kv) (snd kv))) fields.
Proof.
  unfold formatter.json.processFields.
  set (g := fun kv : string * core.Value =>
              (spec.renamed f (fst kv), spec.processed f (fst kv) (snd kv))).
  assert (H : forall acc,
             NoDup (Go.keys acc ++ List.map (spec.renamed f) (Go.keys fields)) ->
             fold_left
               (fun processed kv =>
                  let k := fst kv in
                  let v := snd kv in
                  let key := match Go.lookup (formatter.json.FieldKeyMap f) k with
                             | Some mappedKey => mappedKey
                             | None => k
                             end in
                  match Go.lookup (formatter.json.FieldTransformers f) k with
                  | Some transformer => Go.store processed key (transformer v)
                  | None =>
                      if formatter.json.MaskSensitiveData f
                         && formatter.json.isSensitive f k
                      then Go.store processed key
                             (core.VBytes (formatter.json.MaskStringBytes f))
                      else Go.store processed key v
                  end) fields acc
             = (acc ++ List.map g fields)%list).
  { induction fields as [|[k v] fields IH]; intros acc Hnd;
      cbn [fold_left List.map]; [now rewrite app_nil_r|].
    cbn [Go.keys List.map fst] in Hnd.
    assert (Hk : Go.lookup acc (spec.renamed f k) = None).
    { apply lookup_not_in. intros Hin.
      apply NoDup_remove_2 in Hnd. apply Hnd. apply in_or_app. now left. }
    assert (E : forall x, Go.store acc (spec.renamed f k) x
                          = (acc ++ [(spec.renamed f k, x)])%list)
      by (intros x; now apply lookup_app_None).
    cbv zeta. cbn [fst snd]. fold (spec.renamed f k).
    replace (match Go.lookup (formatter.json.FieldTransformers f) k with
             | Some transformer =>
                 Go.store acc (spec.renamed f k) (transformer v)
             | None =>
                 if formatter.json.MaskSensitiveData f
                    && formatter.json.isSensitive f k
                 then Go.store acc (spec.renamed f k)
                        (core.VBytes (formatter.json.MaskStringBytes f))
                 else Go.store acc (spec.renamed f k) v
             end)
      with (acc ++ [g (k, v)])%list.
    - rewrite IH.
      + now rewrite <- app_assoc.
      + unfold Go.keys in *. rewrite map_app, <- app_assoc. cbn.
        revert Hnd. apply Permutation_NoDup.
        apply Permutation_app_head. reflexivity.
    - unfold g, spec.processed. cbn [fst snd].
      destruct (Go.lookup (formatter.json.FieldTransformers f) k);
        [now rewrite E|].
      destruct (formatter.json.MaskSensitiveData f
                && formatter.json.isSensitive f k); now rewrite E. }
  intros Hnd. exact (H [] Hnd).
Qed.

(** X11.  On a map whose fields go to distinct keys, [processFields] gives
    one entry per field, under the key [FieldKeyMap] renames the field to
    (the field's own name when there is none).  The entry holds the
    transformer's result when [FieldTransformers] has a transformer for the
    field, even if the field is sensitive; otherwise the mask
    [MaskStringBytes] when [MaskSensitiveData] is set and the field is one
    of [SensitiveFields]; otherwise the field's value, unchanged. *)
Theorem processFields_masks_and_transforms :
  forall (f : formatter.json.JSONFormatter) (fields : Go.map core.Value),
    NoDup (List.map (spec.renamed f) (Go.keys fields)) ->
    let out := formatter.json.processFields f fields in
    Go.keys out = List.map (spec.renamed f) (Go.keys fields)
    /\ forall k v,
         In (k, v) fields ->
         (forall t,
            Go.lookup (formatter.json.FieldTransformers f) k = Some t ->
            Go.lookup out (spec.renamed f k) = Some (t v))
         /\ (Go.lookup (formatter.json.FieldTransformers f) k = None ->
             formatter.json.MaskSensitiveData f = true ->
             In k (formatter.json.SensitiveFields f) ->
             Go.lookup out (spec.renamed f k)
             = Some (core.VBytes (formatter.json.MaskStringBytes f)))
         /\ (Go.lookup (formatter.json.FieldTransformers f) k = None ->
             formatter.json.MaskSensitiveData f = false
             \/ ~ In k (formatter.json.SensitiveFields f) ->
             Go.lookup out (spec.renamed f k) = Some v).
Proof.
  intros f fields Hnd out. subst out. rewrite (processFields_map f fields Hnd).
  assert (Hkeys : Go.keys
                    (List.map (fun kv => (spec.renamed f (fst kv),
                                          spec.processed f (fst kv) (snd kv)))
                       fields)
                  = List.map (spec.renamed f) (Go.keys fields)).
  { unfold Go.keys. rewrite !map_map. reflexivity. }
  split; [exact Hkeys|].
  intros k v Hin.
  assert (Hl : Go.lookup
                 (List.map (fun kv => (spec.renamed f (fst kv),
                                       spec.processed f (fst kv) (snd kv)))
                    fields) (spec.renamed f k)
               = Some (spec.processed f k v)).
  { apply lookup_In_NoDup; [now rewrite Hkeys|].
    apply in_map_iff. exists (k, v). now split. }
  rewrite Hl. unfold spec.processed. split; [|split].
  - intros t Ht. now rewrite Ht.
  - intros Ht Hm Hs. rewrite Ht, Hm. apply isSensitive_In in Hs.
    now rewrite Hs.
  - intros Ht Hor. rewrite Ht.
    destruct Hor as [Hm|Hs]; [now rewrite Hm|].
    destruct (formatter.json.isSensitive f k) eqn:E.
    + exfalso. apply Hs. now apply isSensitive_In.
    + now rewrite andb_false_r.
Qed.

Lemma processFields_masks_and_transforms_witness :
  NoDup (List.map (spec.renamed examples.processingJSON)
           (Go.keys examples.secretFields))
  /\ Go.keys (formatter.json.processFields examples.processingJSON
                examples.secretFields)
     = ["login"; "password"; "token"].
Proof.
  assert (H : NoDup (List.map (spec.renamed examples.processingJSON)
                       (Go.keys examples.secretFields))).
  { cbn. repeat constructor; cbn; intuition discriminate. }
  split; [exact H|].
  exact (proj1 (processFields_masks_and_transforms examples.processingJSON
                  examples.secretFields H)).
Defined.

(** ** [util.FormatValue], the other widths *)

(** X12.  With a width of zero or less [util.FormatValue] never truncates:
    for every value that is not an error implementing
    [core.ErrorAppender] it writes the whole rendered content, between
    double quotes when the content holds a space byte and as it is when it
    does not. *)
Theorem FormatValue_no_width :
  forall (buf : string) (value : core.Value) (maxWidth : Z),
    maxWidth <= 0 ->
    spec.implementsErrorAppender value = false ->
    let content := spec.renderedContent value in
    (spec.hasByte " " content ->
       util.FormatValue buf value maxWidth
       = buf ++ Go.byte1 Go.dq ++ content ++ Go.byte1 Go.dq)
    /\ (~ spec.hasByte " " content ->
          util.FormatValue buf value maxWidth = buf ++ content).
Proof.
  intros buf value maxWidth Hw Happ content. subst content.
  rewrite FormatValue_writeContent by assumption.
  unfold util.writeContent.
  destruct (Z.ltb_spec 0 maxWidth); [lia|]. cbn [andb].
  split; intros Hsp.
  - apply Contains_byte1 in Hsp. rewrite Hsp.
    unfold Go.WriteByte, Go.Write. now rewrite !append_assoc.
  - destruct (Go.Contains (spec.renderedContent value) " ") eqn:E;
      [|reflexivity].
    exfalso. apply Hsp. now apply Contains_byte1.
Qed.

Lemma FormatValue_no_width_witness :
  0 <= 0
  /\ spec.implementsErrorAppender (core.VString "two words") = false
  /\ util.FormatValue "" (core.VString "two words") 0
     = Go.byte1 Go.dq ++ "two words" ++ Go.byte1 Go.dq.
Proof.
  split; [lia|]. split; [reflexivity|].
  apply (FormatValue_no_width "" (core.VString "two words") 0);
    [lia | reflexivity |].
  exists "two", "words". reflexivity.
Defined.

(** X13.  With a width [maxWidth > 0], [util.FormatValue] adds at most
    [maxWidth + 3] bytes to the buffer for every value that is not an error
    implementing [core.ErrorAppender]: the content cut to [maxWidth] bytes
    and the ellipsis, or a content of at most [maxWidth] bytes and two
    quotes. *)
Theorem FormatValue_length_bound :
  forall (buf : string) (value : core.Value) (maxWidth : Z),
    0 < maxWidth ->
    spec.implementsErrorAppender value = false ->
    Go.len buf <= Go.len (util.FormatValue buf value maxWidth)
    <= Go.len buf + maxWidth + 3.
Proof.
  intros buf value maxWidth Hw Happ.
  rewrite FormatValue_writeContent by assumption.
  set (content := spec.renderedContent value).
  destruct (writeContent_spec buf content maxWidth Hw) as [Hlong Hshort].
  unfold Go.len in *.
  destruct (Z_lt_le_dec maxWidth (Z.of_nat (String.length content)))
    as [Hlt|Hle].
  - destruct (Hlong Hlt) as (pre & [Hpre _] & ->).
    rewrite !length_append. cbn [String.length]. unfold Go.len in Hpre. lia.
  - destruct (Hshort Hle) as [Hq Hn].
    destruct (Go.Contains content " ") eqn:E.
    + rewrite Hq by now apply Contains_byte1.
      rewrite !length_append. cbn [String.length Go.byte1]. lia.
    + rewrite Hn.
      * rewrite length_append. lia.
      * intros H. apply Contains_byte1 in H. congruence.
Qed.

Lemma FormatValue_length_bound_witness :
  0 < 4
  /\ spec.implementsErrorAppender (core.VInt 1234567) = false
  /\ Go.len "n=" <= Go.len (util.FormatValue "n=" (core.VInt 1234567) 4)
     <= Go.len "n=" + 4 + 3.
Proof.
  split; [lia|]. split; [reflexivity|].
  apply (FormatValue_length_bound "n=" (core.VInt 1234567) 4);
    [lia | reflexivity].
Defined.

(** ** The CSV formatter, built-in columns *)

Lemma lookup_None_not_in {V : Type} (m : Go.map V) (k : string) :
  Go.lookup m k = None -> ~ In k (Go.keys m).
Proof.
  induction m as [|[k' v] m IH]; cbn [Go.lookup Go.keys List.map fst In];
    [intros _ []|].
  destruct (String.eqb_spec k k') as [->|Hne]; [discriminate|].
  intros H [E|Hin]; [congruence | now apply IH].
Qed.

(** X14.  A built-in column name always gives the built-in column: for the
    names timestamp, level, message, pid, goroutine_id, trace_id, file, line
    and error, what [formatField] writes does not depend on the fields of
    the entry, so an entry field of one of these names is never written by
    the CSV formatter. *)
Theorem csv_builtin_shadows_field :
  forall (f : formatter.csv.CSVFormatter) (valBuf name : string)
         (entry : core.LogEntry) (fields : Go.map core.Value),
    In name spec.builtinNames ->
    formatter.csv.formatField f valBuf name (spec.withFields entry fields)
    = formatter.csv.formatField f valBuf name entry.
Proof.
  intros f valBuf name entry fields Hin.
  rewrite !formatField_column. f_equal. unfold spec.column.
  change (spec.builtinColumns f (spec.withFields entry fields))
    with (spec.builtinColumns f entry).
  destruct (Go.lookup (spec.builtinColumns f entry) name) eqn:E;
    [reflexivity|].
  exfalso. apply lookup_None_not_in in E. apply E. exact Hin.
Qed.

Lemma csv_builtin_shadows_field_witness :
  In "message" spec.builtinNames
  /\ formatter.csv.formatField examples.passwordCSV "" "message"
       (spec.withFields examples.loginEntry
          [("message", core.VString "forged")])
     = formatter.csv.formatField examples.passwordCSV "" "message"
         examples.loginEntry.
Proof.
  assert (H : In "message" spec.builtinNames)
    by (cbn; right; right; left; reflexivity).
  split; [exact H|].
  exact (csv_builtin_shadows_field examples.passwordCSV "" "message"
           examples.loginEntry [("message", core.VString "forged")] H).
Defined.

(** ** [ExternalHook.Fire], the trace *)

Lemma hook_int64_small (x : Z) : - 2 ^ 63 <= x < 2 ^ 63 -> hook.int64 x = x.
Proof.
  intros Hx. unfold hook.int64. rewrite Z.mod_small by lia. lia.
Qed.

Lemma backoffDuration_small (a : Z) :
  0 <= a <= 36 ->
  hook.backoffDuration a = 100 * hook.Millisecond * 2 ^ a.
Proof.
  intros Ha. unfold hook.backoffDuration, hook.Millisecond.
  rewrite Z.shiftl_1_l.
  assert (H36 : 2 ^ a <= 2 ^ 36) by (apply Z.pow_le_mono_r; lia).
  assert (H0 : 0 < 2 ^ a) by (apply Z.pow_pos_nonneg; lia).
  change (2 ^ 36) with 68719476736 in H36.
  rewrite (hook_int64_small (2 ^ a)) by lia.
  rewrite (hook_int64_small (2 ^ a * 100)) by lia.
  rewrite hook_int64_small by lia. lia.
Qed.

Lemma fireLoop_S (h : hook.ExternalHook) (net : Z -> hook.Outcome)
    (fuel : nat) (attempt : Z) (lastErr : option Go.error)
    (trace : list hook.Event) :
  hook.fireLoop h net (S fuel) attempt lastErr trace
  = match net attempt with
    | hook.RequestError err =>
        (Some (Go.Errorf_w "failed to create HTTP request: " err), trace)
    | hook.DoError err =>
        hook.fireLoop h net fuel (attempt + 1)
          (Some (Go.Errorf_w ("attempt " ++ Go.FormatInt (attempt + 1)
                              ++ ": failed to send request: ") err))
          (hook.backoff h attempt (trace ++ [hook.Post attempt]))
    | hook.Response StatusCode =>
        if (200 <=? StatusCode) && (StatusCode <? 300)
        then (None, (trace ++ [hook.Post attempt])%list)
        else
          hook.fireLoop h net fuel (attempt + 1)
            (Some (Go.errorString
                     ("attempt " ++ Go.FormatInt (attempt + 1)
                      ++ ": service returned status "
                      ++ Go.FormatInt StatusCode)))
            (hook.backoff h attempt (trace ++ [hook.Post attempt]))
    end.
Proof. reflexivity. Qed.

Lemma fireLoop_failed_prefix (h : hook.ExternalHook) (net : Z -> hook.Outcome) :
  forall (n fuel : nat) (attempt : Z) (lastErr : option Go.error)
         (trace : list hook.Event),
    attempt + Z.of_nat (n + S fuel) = hook.maxRetries h ->
    (forall j, attempt <= j < attempt + Z.of_nat n ->
               spec.failure j (net j) <> None) ->
    exists lastErr',
      hook.fireLoop h net (n + S fuel) attempt lastErr trace
      = hook.fireLoop h net (S fuel) (attempt + Z.of_nat n) lastErr'
          (trace ++ spec.retriesFrom attempt n).
Proof.
  induction n as [|n IH]; intros fuel attempt lastErr trace Hr Hfail.
  - exists lastErr. cbn [Nat.add spec.retriesFrom]. rewrite app_nil_r.
    now replace (attempt + Z.of_nat 0) with attempt by lia.
  - assert (Hsleep : (attempt <? hook.maxRetries h - 1) = true)
      by (apply Z.ltb_lt; lia).
    assert (Hf : spec.failure attempt (net attempt) <> None)
      by (apply Hfail; lia).
    cbn [Nat.add]. rewrite fireLoop_S. unfold hook.backoff. rewrite Hsleep.
    destruct (net attempt) as [err|err|c] eqn:Hnet.
    + now contradiction Hf.
    + match goal with
      | |- exists _, hook.fireLoop _ _ _ _ ?le ?tr = _ =>
          destruct (IH fuel (attempt + 1) le tr) as [l' El'];
            [lia | intros j Hj; apply Hfail; lia |]
      end.
      exists l'. rewrite El'.
      replace (attempt + Z.of_nat (S n)) with (attempt + 1 + Z.of_nat n)
        by lia.
      cbn [spec.retriesFrom]. rewrite <- !app_assoc. reflexivity.
    + cbn [spec.failure] in Hf.
      destruct ((200 <=? c) && (c <? 300)); [now contradiction Hf|].
      match goal with
      | |- exists _, hook.fireLoop _ _ _ _ ?le ?tr = _ =>
          destruct (IH fuel (attempt + 1) le tr) as [l' El'];
            [lia | intros j Hj; apply Hfail; lia |]
      end.
      exists l'. rewrite El'.
      replace (attempt + Z.of_nat (S n)) with (attempt + 1 + Z.of_nat n)
        by lia.
      cbn [spec.retriesFrom]. rewrite <- !app_assoc. reflexivity.
Qed.

(** X15.  [Fire] stops at the first success: when attempt number [i] (from
    0, below [maxRetries]) is the first to get a status in [200, 300) and
    the attempts before it failed, [Fire] returns nil after exactly
    [i + 1] POSTs, having slept the backoff after each of the [i] failed
    attempts and not after the successful one. *)
Theorem Fire_stops_at_first_success :
  forall (h : hook.ExternalHook) (payload : string)
         (net : Z -> hook.Outcome) (i : nat),
    Z.of_nat i < hook.maxRetries h ->
    (forall j, 0 <= j < Z.of_nat i -> spec.failure j (net j) <> None) ->
    spec.succeeds (net (Z.of_nat i)) ->
    hook.Fire h (inl payload) net
    = (None, (spec.retriesFrom 0 i ++ [hook.Post (Z.of_nat i)])%list)
    /\ hook.posts (snd (hook.Fire h (inl payload) net)) = Z.of_nat i + 1.
Proof.
  intros h payload net i Hi Hfail (c & Hc & Hok).
  assert (E : hook.Fire h (inl payload) net
              = (None, (spec.retriesFrom 0 i ++ [hook.Post (Z.of_nat i)])%list)).
  { unfold hook.Fire.
    replace (Z.to_nat (hook.maxRetries h))
      with (i + S (Z.to_nat (hook.maxRetries h) - S i))%nat by lia.
    destruct (fireLoop_failed_prefix h net i
                (Z.to_nat (hook.maxRetries h) - S i) 0 None [])
      as [l' El']; [lia | intros j Hj; apply Hfail; lia |].
    rewrite El', fireLoop_S. cbn [app Z.add]. rewrite Hc.
    destruct (Z.leb_spec 200 c); [|lia].
    destruct (Z.ltb_spec c 300); [|lia]. reflexivity. }
  split; [exact E|]. rewrite E. cbn [snd].
  rewrite posts_app_Post. f_equal.
  clear. generalize 0 at 1. induction i as [|i IH]; intros a; [reflexivity|].
  cbn [spec.retriesFrom]. unfold hook.posts in *. cbn [filter hook.isPost].
  cbn [List.length]. rewrite Nat2Z.inj_succ, (IH (a + 1)). lia.
Qed.

Lemma Fire_stops_at_first_success_witness :
  Z.of_nat 2 < hook.maxRetries examples.hook3
  /\ hook.posts (snd (hook.Fire examples.hook3 (inl "{}") examples.flaky))
     = Z.of_nat 2 + 1.
Proof.
  assert (H1 : Z.of_nat 2 < hook.maxRetries examples.hook3) by (cbn; lia).
  split; [exact H1|].
  refine (proj2 (Fire_stops_at_first_success examples.hook3 "{}"
                   examples.flaky 2 H1 _ _)).
  - intros j Hj. unfold examples.flaky.
    destruct (Z.ltb_spec j 2); [discriminate | lia].
  - exists 200. split; [reflexivity | lia].
Defined.

Lemma totalSleep_app (t1 t2 : list hook.Event) :
  spec.totalSleep (t1 ++ t2) = spec.totalSleep t1 + spec.totalSleep t2.
Proof.
  induction t1 as [|[a|d] t1 IH]; cbn [app spec.totalSleep]; lia.
Qed.

Lemma totalSleep_retriesFrom (n : nat) :
  forall a, 0 <= a -> a + Z.of_nat n <= 37 ->
    spec.totalSleep (spec.retriesFrom a n)
    = 100 * hook.Millisecond * (2 ^ (a + Z.of_nat n) - 2 ^ a).
Proof.
  induction n as [|n IH]; intros a Ha Hn; cbn [spec.retriesFrom spec.totalSleep].
  - replace (a + Z.of_nat 0) with a by lia. lia.
  - rewrite IH by lia. rewrite backoffDuration_small by lia.
    replace (a + 1 + Z.of_nat n) with (a + Z.of_nat (S n)) by lia.
    rewrite (Z.pow_add_r 2 a 1) by lia. lia.
Qed.

(** X16.  When all [r = maxRetries] attempts fail, [Fire] makes exactly the
    POSTs 0 to [r - 1], sleeping the backoff after each but the last: it
    never sleeps before giving up.  For [r] up to 38 the whole time slept
    is 100 ms times [2^(r-1) - 1]. *)
Theorem Fire_all_fail_trace :
  forall (h : hook.ExternalHook) (payload : string)
         (net : Z -> hook.Outcome),
    0 < hook.maxRetries h ->
    (forall i, 0 <= i < hook.maxRetries h ->
               spec.failure i (net i) <> None) ->
    let trace := snd (hook.Fire h (inl payload) net) in
    let last := hook.maxRetries h - 1 in
    trace = (spec.retriesFrom 0 (Z.to_nat last) ++ [hook.Post last])%list
    /\ (hook.maxRetries h <= 38 ->
        spec.totalSleep trace
        = 100 * hook.Millisecond * (2 ^ last - 1)).
Proof.
  intros h payload net Hr Hfail trace last.
  assert (E : trace
              = (spec.retriesFrom 0 (Z.to_nat last) ++ [hook.Post last])%list).
  { subst trace last. unfold hook.Fire.
    replace (Z.to_nat (hook.maxRetries h))
      with (Z.to_nat (hook.maxRetries h - 1) + 1)%nat by lia.
    destruct (fireLoop_failed_prefix h net
                (Z.to_nat (hook.maxRetries h - 1)) 0 0 None [])
      as [l' El']; [lia | intros j Hj; apply Hfail; lia |].
    rewrite El', fireLoop_S. cbn [app Z.add].
    rewrite Z2Nat.id by lia.
    pose proof (Hfail (hook.maxRetries h - 1) ltac:(lia)) as Hf.
    unfold hook.backoff. rewrite Z.ltb_irrefl.
    destruct (net (hook.maxRetries h - 1)) as [err|err|c];
      [now contradiction Hf | | ].
    - cbn [hook.fireLoop]. reflexivity.
    - cbn [spec.failure] in Hf.
      destruct ((200 <=? c) && (c <? 300)); [now contradiction Hf|].
      cbn [hook.fireLoop]. reflexivity. }
  split; [exact E|].
  intros H38. rewrite E, totalSleep_app, totalSleep_retriesFrom by lia.
  cbn [spec.totalSleep]. subst last. rewrite Z2Nat.id by lia.
  cbn [Z.add]. change (2 ^ 0) with 1. lia.
Qed.

Lemma Fire_all_fail_trace_witness :
  0 < hook.maxRetries examples.hook3
  /\ spec.totalSleep (snd (hook.Fire examples.hook3 (inl "{}") examples.down))
     = 100 * hook.Millisecond * (2 ^ (hook.maxRetries examples.hook3 - 1) - 1).
Proof.
  assert (H1 : 0 < hook.maxRetries examples.hook3) by (cbn; lia).
  split; [exact H1|].
  refine (proj2 (Fire_all_fail_trace examples.hook3 "{}" examples.down
                   H1 _) _).
  - intros i Hi. discriminate.
  - cbn. lia.
Defined.

(** X17.  The backoff after attempt number [a] is 100 ms times [2^a] for
    every [a] from 0 to 36: it doubles from one attempt to the next.  At
    [a = 37] the 64-bit product has wrapped around and the duration is
    negative. *)
Theorem backoffDuration_doubles :
  (forall a, 0 <= a <= 36 ->
     hook.backoffDuration a = 100 * hook.Millisecond * 2 ^ a)
  /\ (forall a, 0 <= a < 36 ->
        hook.backoffDuration (a + 1) = 2 * hook.backoffDuration a)
  /\ hook.backoffDuration 37 < 0.
Proof.
  split; [exact backoffDuration_small|]. split.
  - intros a Ha. rewrite !backoffDuration_small by lia.
    rewrite Z.pow_add_r by lia. lia.
  - reflexivity.
Qed.

Lemma fireLoop_error_wraps (h : hook.ExternalHook) (net : Z -> hook.Outcome) :
  forall (fuel : nat) (attempt : Z) (lastErr : option Go.error)
         (trace : list hook.Event) (e : Go.error),
    fuel <> O \/ lastErr <> None ->
    fst (hook.fireLoop h net fuel attempt lastErr trace) = Some e ->
    Go.Unwrap e <> None.
Proof.
  induction fuel as [|fuel IH]; intros attempt lastErr trace e Hne He.
  - destruct Hne as [Hne|Hne]; [now contradiction Hne|].
    cbn [hook.fireLoop] in He. destruct lastErr as [l|]; [|now contradiction Hne].
    cbn in He. injection He as <-. discriminate.
  - rewrite fireLoop_S in He. destruct (net attempt) as [err|err|c].
    + cbn in He. injection He as <-. discriminate.
    + eapply IH; [|exact He]. right. discriminate.
    + destruct ((200 <=? c) && (c <? 300)); [discriminate He|].
      eapply IH; [|exact He]. right. discriminate.
Qed.

(** X18.  A hook made by [NewExternalHook] has at least one attempt and a
    positive timeout, whatever numbers were passed; and every error its
    [Fire] returns wraps a cause: the marshalling error, the request
    error, or the failure of the last attempt.  The error is never the one
    built around a nil cause. *)
Theorem NewExternalHook_Fire_error_wraps :
  forall (endpoint : string) (maxRetries timeout : Z) (h : hook.ExternalHook),
    hook.NewExternalHook endpoint maxRetries timeout = (Some h, None) ->
    1 <= hook.maxRetries h
    /\ 0 < hook.timeout h
    /\ forall (marshal : string + Go.error) (net : Z -> hook.Outcome)
              (e : Go.error),
         fst (hook.Fire h marshal net) = Some e ->
         exists cause, Go.Unwrap e = Some cause.
Proof.
  intros endpoint maxRetries timeout h Hnew.
  unfold hook.NewExternalHook in Hnew.
  destruct (String.eqb endpoint ""); [discriminate Hnew|].
  injection Hnew as <-. cbn [hook.maxRetries hook.timeout].
  assert (H1 : 1 <= (if maxRetries <=? 0 then 3 else maxRetries))
    by (destruct (Z.leb_spec maxRetries 0); lia).
  split; [exact H1|]. split.
  - destruct (Z.leb_spec timeout 0); [reflexivity | lia].
  - intros marshal net e He.
    assert (Hw : Go.Unwrap e <> None).
    { unfold hook.Fire in He. destruct marshal as [payload|err].
      - eapply fireLoop_error_wraps; [|exact He].
        left. cbn [hook.maxRetries]. lia.
      - cbn in He. injection He as <-. discriminate. }
    destruct (Go.Unwrap e) as [cause|]; [now exists cause | now contradiction Hw].
Qed.

Lemma NewExternalHook_Fire_error_wraps_witness :
  hook.NewExternalHook "http://example.com/logs" 0 0
  = (Some {| hook.endpoint := "http://example.com/logs";
             hook.client := {| hook.Timeout := 10 * hook.Second |};
             hook.maxRetries := 3;
             hook.timeout := 10 * hook.Second |}, None)
  /\ 1 <= 3.
Proof.
  split; [reflexivity|].
  exact (proj1 (NewExternalHook_Fire_error_wraps "http://example.com/logs"
                  0 0 _ eq_refl)).
Defined.

(** ** The sampler, runs of [Log] *)

Lemma div_step (r s : Z) :
  0 < r -> s / r = (s - 1) / r + (if s mod r =? 0 then 1 else 0).
Proof.
  intros Hr.
  pose proof (Z.div_mod s r ltac:(lia)) as Hs.
  pose proof (Z.mod_pos_bound s r Hr) as Hb.
  destruct (Z.eqb_spec (s mod r) 0) as [E|E].
  - symmetry. rewrite E in Hs.
    assert (H : (s - 1) / r = s / r - 1).
    { symmetry. apply (Z.div_unique (s - 1) r (s / r - 1) (r - 1)); [lia|].
      lia. }
    lia.
  - assert (H : (s - 1) / r = s / r).
    { symmetry. apply (Z.div_unique (s - 1) r (s / r) (s mod r - 1)); lia. }
    lia.
Qed.

Lemma everyNth_length (r : Z) (calls : list sampler.LogCall) :
  0 < r ->
  forall s,
    Z.of_nat (List.length (spec.everyNth r s calls))
    = (s - 1 + Z.of_nat (List.length calls)) / r - (s - 1) / r.
Proof.
  intros Hr. induction calls as [|call calls IH]; intros s.
  - cbn [spec.everyNth List.length]. replace (s - 1 + Z.of_nat 0) with (s - 1)
      by lia. lia.
  - cbn [spec.everyNth]. pose proof (div_step r s Hr) as Hd.
    replace (s - 1 + Z.of_nat (List.length (call :: calls)))
      with (s + 1 - 1 + Z.of_nat (List.length calls))
      by (cbn [List.length]; lia).
    destruct (s mod r =? 0); cbn [List.length];
      rewrite ?Nat2Z.inj_succ, IH;
      replace (s + 1 - 1) with s by lia; lia.
Qed.

Lemma logAll_sampled (r : Z) (calls : list sampler.LogCall) :
  1 < r ->
  forall (p : list sampler.LogCall) (c : Z),
    0 <= c -> c + Z.of_nat (List.length calls) < 2 ^ 63 ->
    spec.logAll {| sampler.processor := p; sampler.rate := r;
                   sampler.counter := c |} calls
    = {| sampler.processor := (p ++ spec.everyNth r (c + 1) calls)%list;
         sampler.rate := r;
         sampler.counter := c + Z.of_nat (List.length calls) |}.
Proof.
  intros Hr. induction calls as [|[[level msg] fields] calls IH];
    intros p c Hc Hlen.
  - cbn [spec.logAll fold_left spec.everyNth List.length].
    rewrite app_nil_r. f_equal. lia.
  - cbn [List.length] in Hlen. rewrite Nat2Z.inj_succ in Hlen.
    unfold spec.logAll. cbn [fold_left fst snd]. fold (spec.logAll).
    unfold sampler.Log, sampler.ShouldLog.
    cbn [sampler.rate sampler.counter sampler.processor].
    destruct (Z.leb_spec r 1); [lia|].
    unfold sampler.AddInt64. rewrite int64_small by lia.
    rewrite Z.rem_mod_nonneg by lia.
    cbn [spec.everyNth].
    destruct (Z.eqb_spec ((c + 1) mod r) 0) as [E|E];
      cbn [sampler.rate sampler.counter sampler.processor];
      change (fold_left _ calls ?s) with (spec.logAll s calls);
      rewrite IH by lia; cbn [List.length];
      rewrite ?Nat2Z.inj_succ, <- ?app_assoc; cbn [app];
      f_equal; lia.
Qed.

(** X19.  A new sampler with rate [r > 1] that receives fewer than 2^63
    [Log] calls, from one caller, passes on to its processor exactly the
    calls number [r], [2r], [3r], ..., in the order received, after what
    the processor had received before: of [n] calls, [n / r] (rounded down)
    are passed on. *)
Theorem Log_samples_every_rth :
  forall (r : Z) (p calls : list sampler.LogCall),
    1 < r ->
    Z.of_nat (List.length calls) < 2 ^ 63 ->
    let ls := spec.logAll (sampler.NewSampler p r) calls in
    sampler.processor ls = (p ++ spec.everyNth r 1 calls)%list
    /\ Z.of_nat (List.length (spec.everyNth r 1 calls))
       = Z.of_nat (List.length calls) / r
    /\ sampler.counter ls = Z.of_nat (List.length calls).
Proof.
  intros r p calls Hr Hlen ls. subst ls. unfold sampler.NewSampler.
  rewrite logAll_sampled by lia.
  cbn [sampler.processor sampler.counter Z.add].
  split; [reflexivity|]. split; [|reflexivity].
  rewrite everyNth_length by lia.
  replace (1 - 1 + Z.of_nat (List.length calls))
    with (Z.of_nat (List.length calls)) by lia.
  change ((1 - 1) / r) with (0 / r). rewrite Z.div_0_l by lia. lia.
Qed.

Lemma Log_samples_every_rth_witness :
  1 < 2
  /\ Z.of_nat (List.length examples.threeCalls) < 2 ^ 63
  /\ sampler.processor
       (spec.logAll (sampler.NewSampler [] 2) examples.threeCalls)
     = ([] ++ spec.everyNth 2 1 examples.threeCalls)%list.
Proof.
  split; [lia|]. split; [cbn; lia|].
  refine (proj1 (Log_samples_every_rth 2 [] examples.threeCalls _ _));
    [lia | cbn; lia].
Defined.

(** X20.  A sampler with rate [r <= 1] samples nothing away: every [Log]
    call is passed on to the processor, in order, and the counter is never
    touched, however many calls there are. *)
Theorem Log_rate_one_forwards_all :
  forall (r : Z) (p calls : list sampler.LogCall),
    r <= 1 ->
    spec.logAll (sampler.NewSampler p r) calls
    = {| sampler.processor := (p ++ calls)%list; sampler.rate := r;
         sampler.counter := 0 |}.
Proof.
  intros r p calls Hr. unfold sampler.NewSampler. revert p.
  induction calls as [|[[level msg] fields] calls IH]; intros p.
  - cbn. now rewrite app_nil_r.
  - unfold spec.logAll. cbn [fold_left fst snd].
    unfold sampler.Log, sampler.ShouldLog. cbn [sampler.rate].
    destruct (Z.leb_spec r 1); [|lia].
    cbn [sampler.rate sampler.counter sampler.processor].
    change (fold_left _ calls ?s) with (spec.logAll s calls).
    rewrite IH, <- app_assoc. reflexivity.
Qed.

Lemma Log_rate_one_forwards_all_witness :
  1 <= 1
  /\ sampler.processor (spec.logAll (sampler.NewSampler [] 1)
                          examples.threeCalls)
     = examples.threeCalls.
Proof.
  split; [lia|].
  rewrite (Log_rate_one_forwards_all 1 [] examples.threeCalls);
    [reflexivity | lia].
Defined.

(** ** [RotatingFileWriter] *)

Lemma calls_cons (w : writer.RotatingFileWriter) (c : writer.Call)
    (rest : list writer.Call) :
  writer.calls w (c :: rest)
  = (fst (writer.calls (fst (writer.call w c)) rest),
     snd (writer.call w c) :: snd (writer.calls (fst (writer.call w c)) rest)).
Proof.
  cbn [writer.calls]. destruct (writer.call w c) as [w' r]. cbn [fst snd].
  destruct (writer.calls w' rest) as [w'' rs]. reflexivity.
Qed.

Lemma call_Write (f : writer.File) (b : bool) (p : string) :
  writer.call {| writer.file := f; writer.closed := b |} (writer.CallWrite p)
  = ({| writer.file :=
          {| writer.reached := (writer.reached f ++ [writer.FileWrite p])%list;
             writer.answer := writer.answer f |};
        writer.closed := b |},
     writer.answer f (writer.reached f) (writer.FileWrite p)).
Proof.
  unfold writer.call, writer.Write, writer.File_Write.
  cbn [writer.file writer.closed].
  now destruct (writer.answer f (writer.reached f) (writer.FileWrite p)).
Qed.

Lemma call_Close (f : writer.File) (b : bool) :
  writer.call {| writer.file := f; writer.closed := b |} writer.CallClose
  = if b then ({| writer.file := f; writer.closed := true |}, (0, None))
    else ({| writer.file :=
               {| writer.reached := (writer.reached f ++ [writer.FileClose])%list;
                  writer.answer := writer.answer f |};
             writer.closed := true |},
          (0, snd (writer.answer f (writer.reached f) writer.FileClose))).
Proof.
  unfold writer.call, writer.Close, writer.File_Close.
  cbn [writer.file writer.closed]. destruct b; [reflexivity|].
  now destruct (writer.answer f (writer.reached f) writer.FileClose).
Qed.

Lemma calls_passedOn (cs : list writer.Call) :
  forall (f : writer.File) (b : bool),
    let w := fst (writer.calls {| writer.file := f; writer.closed := b |} cs) in
    writer.reached (writer.file w)
    = (writer.reached f ++ spec.passedOn b cs)%list
    /\ writer.answer (writer.file w) = writer.answer f
    /\ writer.closed w = b || spec.hasClose cs.
Proof.
  induction cs as [|[p|] rest IH]; intros f b.
  - cbn. now rewrite app_nil_r, orb_false_r.
  - cbv zeta. rewrite calls_cons, call_Write. cbn [fst].
    destruct (IH {| writer.reached := (writer.reached f ++ [writer.FileWrite p])%list;
                    writer.answer := writer.answer f |} b) as (H1 & H2 & H3).
    rewrite H1, H2, H3. cbn [writer.reached writer.answer spec.passedOn
                             spec.hasClose].
    now rewrite <- app_assoc.
  - cbv zeta. rewrite calls_cons, call_Close.
    cbn [spec.passedOn spec.hasClose]. rewrite orb_true_r.
    destruct b; cbn [fst].
    + destruct (IH f true) as (H1 & H2 & H3). now rewrite H1, H2, H3.
    + destruct (IH {| writer.reached := (writer.reached f ++ [writer.FileClose])%list;
                      writer.answer := writer.answer f |} true)
        as (H1 & H2 & H3).
      rewrite H1, H2, H3. cbn [writer.reached writer.answer].
      now rewrite <- app_assoc.
Qed.

Lemma passedOn_closes (cs : list writer.Call) :
  List.filter spec.isFileClose (spec.passedOn true cs) = []
  /\ List.length (List.filter spec.isFileClose (spec.passedOn false cs))
     = if spec.hasClose cs then 1%nat else 0%nat.
Proof.
  induction cs as [|[p|] rest [IH1 IH2]];
    cbn [spec.passedOn spec.hasClose List.filter spec.isFileClose];
    [now split | now split |].
  split; [assumption|]. cbn [List.length]. now rewrite IH1.
Qed.

Lemma calls_answered (cs : list writer.Call) :
  forall (f : writer.File) (b : bool) (i : nat) (c : writer.Call),
    nth_error cs i = Some c ->
    nth_error (snd (writer.calls {| writer.file := f; writer.closed := b |} cs))
      i
    = Some (spec.answered b f (firstn i cs) c).
Proof.
  induction cs as [|c0 rest IH]; intros f b i c H;
    [destruct i; discriminate H|].
  rewrite calls_cons. cbn [snd]. destruct i as [|i].
  - cbn in H. injection H as ->. cbn [nth_error firstn].
    unfold spec.answered. cbn [spec.passedOn spec.hasClose].
    rewrite app_nil_r, orb_false_r.
    destruct c as [p|]; [now rewrite call_Write|].
    rewrite call_Close. now destruct b.
  - cbn [nth_error firstn] in *. destruct c0 as [p|].
    + rewrite call_Write. cbn [fst]. rewrite (IH _ _ _ _ H).
      unfold spec.answered.
      cbn [writer.reached writer.answer spec.passedOn spec.hasClose].
      now rewrite <- app_assoc.
    + rewrite call_Close. destruct b; cbn [fst]; rewrite (IH _ _ _ _ H);
        unfold spec.answered;
        cbn [writer.reached writer.answer spec.passedOn spec.hasClose orb];
        [reflexivity | now rewrite <- app_assoc].
Qed.

(** X21.  On a [RotatingFileWriter] just made over a file, for any sequence
    of [Write] and [Close] calls made one after the other, and whatever the
    file answers: every [Write] is passed on to the file with its bytes, in
    order, also after [Close] (the writer does not look at its closed flag
    when writing), and returns the count and the error the file answered;
    the first [Close] is passed on to the file and returns the error the
    file answered; a later [Close] does not reach the file and returns nil.
    So the file is closed once if [Close] was called at all, never twice. *)
Theorem RotatingFileWriter_calls :
  forall (f : writer.File) (cs : list writer.Call),
    let w0 := {| writer.file := f; writer.closed := false |} in
    let w := fst (writer.calls w0 cs) in
    (forall filename : string,
       writer.NewRotatingFileWriter filename (inl f) = (Some w0, None))
    /\ writer.reached (writer.file w)
       = (writer.reached f ++ spec.passedOn false cs)%list
    /\ List.length (List.filter spec.isFileClose (spec.passedOn false cs))
       = (if spec.hasClose cs then 1%nat else 0%nat)
    /\ writer.closed w = spec.hasClose cs
    /\ (forall (i : nat) (c : writer.Call),
          nth_error cs i = Some c ->
          nth_error (snd (writer.calls w0 cs)) i
          = Some (spec.answered false f (firstn i cs) c)).
Proof.
  intros f cs w0 w. subst w w0.
  destruct (calls_passedOn cs f false) as (H1 & _ & H3).
  split; [reflexivity|]. split; [exact H1|]. split; [apply passedOn_closes|].
  split; [exact H3|]. intros i c H. now apply calls_answered.
Qed.

(** On a disk that fills up after five bytes, with a [Close] between two
    writes: both writes reach the file, the second one after the file was
    closed, and the second [Close] does not. *)
Example RotatingFileWriter_full_disk :
  let w0 := {| writer.file := examples.smallDisk; writer.closed := false |} in
  let r := writer.calls w0
             [writer.CallWrite "12345678"; writer.CallClose;
              writer.CallWrite "9"; writer.CallClose] in
  writer.reached (writer.file (fst r))
  = [writer.FileWrite "12345678"; writer.FileClose; writer.FileWrite "9"]
  /\ snd r = [(5, Some examples.ENOSPC); (0, None);
              (0, Some examples.ErrClosed); (0, None)].
Proof. split; reflexivity. Qed.

(** ** The metrics collector *)

Lemma lookup_store_eq {V : Type} (m : Go.map V) (k : string) (v : V) :
  Go.lookup (Go.store m k v) k = Some v.
Proof.
  unfold Go.store. destruct (Go.lookup m k) as [old|] eqn:E.
  - assert (H : Go.lookup m k <> None) by congruence. clear E old.
    induction m as [|[k' v'] m IH]; [now contradiction H|].
    cbn [Go.lookup List.map fst] in *.
    destruct (String.eqb_spec k k') as [->|Hne].
    + cbn [Go.lookup]. now rewrite String.eqb_refl.
    + cbn [Go.lookup]. destruct (String.eqb_spec k k'); [contradiction|].
      now apply IH.
  - induction m as [|[k' v'] m IH]; cbn [app Go.lookup] in *.
    + now rewrite String.eqb_refl.
    + destruct (String.eqb_spec k k'); [discriminate E | now apply IH].
Qed.

Lemma lookup_store_neq {V : Type} (m : Go.map V) (k k' : string) (v : V) :
  k' <> k -> Go.lookup (Go.store m k v) k' = Go.lookup m k'.
Proof.
  intros Hne. unfold Go.store. destruct (Go.lookup m k) as [old|].
  - induction m as [|[k0 v0] m IH]; [reflexivity|].
    cbn [Go.lookup List.map fst].
    destruct (String.eqb_spec k k0) as [->|Hk].
    + cbn [Go.lookup]. destruct (String.eqb_spec k' k0); [contradiction|].
      exact IH.
    + cbn [Go.lookup]. destruct (String.eqb_spec k' k0); [reflexivity|].
      exact IH.
  - induction m as [|[k0 v0] m IH]; cbn [app Go.lookup].
    + destruct (String.eqb_spec k' k); [contradiction | reflexivity].
    + destruct (String.eqb_spec k' k0); [reflexivity | exact IH].
Qed.

Lemma counterName_inj (l l' : core.Level) :
  spec.counterName l = spec.counterName l' -> l = l'.
Proof. destruct l, l'; intros H; try reflexivity; discriminate H. Qed.

Lemma metric_int64_add_l (a b : Z) :
  metric.int64 (metric.int64 a + b) = metric.int64 (a + b).
Proof.
  unfold metric.int64.
  replace ((a + 2 ^ 63) mod 2 ^ 64 - 2 ^ 63 + b + 2 ^ 63)
    with ((a + 2 ^ 63) mod 2 ^ 64 + b) by lia.
  rewrite Zplus_mod_idemp_l. f_equal. f_equal. lia.
Qed.

Lemma record_counter (d : metric.DefaultMetricsCollector)
    (r : metric.Record_) (name : string) :
  metric.GetCounter (metric.record d r) name
  = match r with
    | metric.Counter l _ =>
        if String.eqb name (spec.counterName l)
        then metric.int64 (metric.GetCounter d name + 1)
        else metric.GetCounter d name
    | _ => metric.GetCounter d name
    end.
Proof.
  destruct r as [l tags|m v tags|m v tags]; try reflexivity.
  cbn [metric.record]. unfold metric.IncrementCounter.
  assert (Hg : (core.Level_rank l <? core.Level_rank core.TRACE)
               || (core.Level_rank core.PANIC <? core.Level_rank l) = false)
    by (destruct l; reflexivity).
  rewrite Hg. unfold metric.GetCounter, metric.get. cbn [metric.counters].
  fold (spec.counterName l).
  destruct (String.eqb_spec name (spec.counterName l)) as [->|Hne].
  - now rewrite lookup_store_eq.
  - now rewrite lookup_store_neq.
Qed.

Lemma records_counter (rs : list metric.Record_) (level : core.Level) :
  forall d,
    metric.GetCounter (fold_left metric.record rs d) (spec.counterName level)
    = match spec.increments level rs with
      | O => metric.GetCounter d (spec.counterName level)
      | S _ =>
          metric.int64 (metric.GetCounter d (spec.counterName level)
                        + Z.of_nat (spec.increments level rs))
      end.
Proof.
  induction rs as [|r rs IH]; intros d; [reflexivity|].
  cbn [fold_left]. rewrite IH, record_counter.
  destruct r as [l tags|m v tags|m v tags]; cbn [spec.increments];
    try reflexivity.
  destruct (Z.eqb_spec (core.Level_rank l) (core.Level_rank level)) as [E|E].
  - assert (l = level) by (destruct l, level; try reflexivity; discriminate E).
    subst l. rewrite String.eqb_refl.
    destruct (spec.increments level rs) as [|n].
    + f_equal.
    + rewrite metric_int64_add_l. f_equal. lia.
  - destruct (String.eqb_spec (spec.counterName level) (spec.counterName l))
      as [Hk|Hk]; [|reflexivity].
    apply counterName_inj in Hk. subst l. now contradiction E.
Qed.

Lemma records_other (rs : list metric.Record_) (name : string) :
  (forall l, name <> spec.counterName l) ->
  forall d,
    metric.GetCounter (fold_left metric.record rs d) name
    = metric.GetCounter d name.
Proof.
  intros Hn. induction rs as [|r rs IH]; intros d; [reflexivity|].
  cbn [fold_left]. rewrite IH, record_counter.
  destruct r as [l tags|m v tags|m v tags]; try reflexivity.
  destruct (String.eqb_spec name (spec.counterName l)) as [E|E];
    [now apply Hn in E | reflexivity].
Qed.

(** X22.  After any run of [IncrementCounter], [RecordHistogram] and
    [RecordGauge] calls on a new collector, [GetCounter] of the name
    [log.] followed by the level's label in lower case is the number of
    [IncrementCounter] calls made at that level, as an [int64]; the levels
    do not share a counter, recording a histogram or a gauge changes no
    counter, and [GetCounter] of any other name is 0.  The counter of INFO
    is named [log.info]. *)
Theorem GetCounter_counts_increments :
  forall (rs : list metric.Record_),
    let d := fold_left metric.record rs metric.NewDefaultMetricsCollector in
    (forall level,
       metric.GetCounter d (spec.counterName level)
       = metric.int64 (Z.of_nat (spec.increments level rs)))
    /\ (forall name,
          (forall level, name <> spec.counterName level) ->
          metric.GetCounter d name = 0)
    /\ spec.counterName core.INFO = "log.info".
Proof.
  intros rs d. subst d. split; [|split].
  - intros level. rewrite records_counter.
    destruct (spec.increments level rs); reflexivity.
  - intros name Hn. now rewrite records_other.
  - reflexivity.
Qed.

(** ** [MaskEmail] *)

Lemma index_at_None (s : string) :
  spec.allBytes spec.notAt s = true -> String.index 0 "@" s = None.
Proof.
  induction s as [|c s IH]; [reflexivity|].
  cbn [spec.allBytes]. intros H. apply andb_true_iff in H.
  destruct H as [Hc Hs]. cbn [String.index prefix].
  unfold spec.notAt in Hc. apply negb_true_iff in Hc.
  destruct (ascii_dec "@" c) as [<-|Hne].
  - now rewrite Ascii.eqb_refl in Hc.
  - now rewrite (IH Hs).
Qed.

Lemma index_at_Some (localPart domain : string) :
  spec.allBytes spec.notAt localPart = true ->
  String.index 0 "@" (localPart ++ String "@" domain)
  = Some (String.length localPart).
Proof.
  induction localPart as [|c s IH]; cbn [append String.length].
  - intros _. cbn [String.index prefix].
    destruct (ascii_dec "@" "@") as [_|Hne]; [|now contradiction Hne].
    now destruct domain.
  - cbn [spec.allBytes]. intros H. apply andb_true_iff in H.
    destruct H as [Hc Hs]. cbn [String.index prefix].
    unfold spec.notAt in Hc. apply negb_true_iff in Hc.
    destruct (ascii_dec "@" c) as [<-|Hne].
    + now rewrite Ascii.eqb_refl in Hc.
    + now rewrite (IH Hs).
Qed.

Lemma substring_prefix (a b : string) :
  substring 0 (String.length a) (a ++ b) = a.
Proof.
  induction a as [|c a IH]; cbn.
  - now destruct b.
  - now rewrite IH.
Qed.

Lemma substring_suffix (a b : string) :
  substring (String.length a) (String.length b) (a ++ b) = b.
Proof.
  induction a as [|c a IH]; cbn; [|exact IH].
  induction b as [|c b IH]; cbn; [reflexivity | now rewrite IH].
Qed.

Lemma at_split (email : string) :
  spec.allBytes spec.notAt email = true
  \/ exists localPart domain,
       spec.allBytes spec.notAt localPart = true
       /\ email = localPart ++ String "@" domain.
Proof.
  induction email as [|c s IH]; [now left|].
  destruct (Ascii.eqb_spec c "@") as [->|Hne].
  - right. exists "", s. now split.
  - assert (Hc : spec.notAt c = true).
    { unfold spec.notAt. apply negb_true_iff. now apply Ascii.eqb_neq. }
    destruct IH as [Hs|(l & d & Hl & ->)].
    + left. cbn [spec.allBytes]. now rewrite Hc, Hs.
    + right. exists (String c l), d. cbn [spec.allBytes append].
      now rewrite Hc, Hl.
Qed.

Lemma MaskEmail_at (localPart domain : string) :
  spec.allBytes spec.notAt localPart = true ->
  example.MaskEmail (localPart ++ String "@" domain)
  = spec.keptPrefix localPart ++ "***@" ++ domain.
Proof.
  intros Hl. unfold example.MaskEmail, Go.Index.
  rewrite (index_at_Some localPart domain Hl). cbv zeta.
  destruct (Z.eqb_spec (Z.of_nat (String.length localPart)) (-1)); [lia|].
  cbn [negb].
  assert (Hs : Go.slice_to (localPart ++ String "@" domain)
                 (Z.of_nat (String.length localPart)) = localPart)
    by (unfold Go.slice_to; rewrite Nat2Z.id; apply substring_prefix).
  assert (Hd : Go.slice_from (localPart ++ String "@" domain)
                 (Z.of_nat (String.length localPart) + 1) = domain).
  { unfold Go.slice_from.
    replace (Z.to_nat (Z.of_nat (String.length localPart) + 1))
      with (String.length (localPart ++ "@"))
      by (rewrite length_append; cbn; lia).
    replace (localPart ++ String "@" domain)
      with ((localPart ++ "@") ++ domain)
      by (now rewrite append_assoc).
    replace (String.length ((localPart ++ "@") ++ domain)
             - String.length (localPart ++ "@"))%nat
      with (String.length domain) by (rewrite !length_append; lia).
    apply substring_suffix. }
  rewrite Hs, Hd. unfold spec.keptPrefix.
  destruct (2 <? Go.len localPart); reflexivity.
Qed.

(** X23.  [MaskEmail] leaves a text without an at sign as it is.  In a text
    with one, it splits at the first at sign: what follows is kept whole;
    what precedes is replaced by three stars, after its first two bytes
    when it is longer than two bytes and with nothing kept when it is not.
    Every text is of one of the two kinds.  So two addresses in the same
    domain are masked alike when their local parts are both at most two
    bytes long, or are both longer and begin with the same two bytes: the
    rest of the local part, and its length, are not in the output. *)
Theorem MaskEmail_spec :
  (forall email,
     spec.allBytes spec.notAt email = true ->
     example.MaskEmail email = email)
  /\ (forall localPart domain,
        spec.allBytes spec.notAt localPart = true ->
        example.MaskEmail (localPart ++ "@" ++ domain)
        = spec.keptPrefix localPart ++ "***@" ++ domain)
  /\ (forall email,
        spec.allBytes spec.notAt email = true
        \/ exists localPart domain,
             spec.allBytes spec.notAt localPart = true
             /\ email = localPart ++ "@" ++ domain)
  /\ (forall l1 l2 domain,
        spec.allBytes spec.notAt l1 = true ->
        spec.allBytes spec.notAt l2 = true ->
        (Go.len l1 <= 2 /\ Go.len l2 <= 2)
        \/ (2 < Go.len l1 /\ 2 < Go.len l2
            /\ Go.slice_to l1 2 = Go.slice_to l2 2) ->
        example.MaskEmail (l1 ++ "@" ++ domain)
        = example.MaskEmail (l2 ++ "@" ++ domain)).
Proof.
  split; [|split; [|split]].
  - intros email H. unfold example.MaskEmail, Go.Index.
    now rewrite (index_at_None email H).
  - intros localPart domain H. now apply MaskEmail_at.
  - apply at_split.
  - intros l1 l2 domain H1 H2 Hcase.
    cbn [append]. rewrite !MaskEmail_at by assumption.
    unfold spec.keptPrefix.
    destruct Hcase as [[Ha Hb]|(Ha & Hb & Hp)].
    + destruct (Z.ltb_spec 2 (Go.len l1)); [lia|].
      destruct (Z.ltb_spec 2 (Go.len l2)); [lia|]. reflexivity.
    + destruct (Z.ltb_spec 2 (Go.len l1)); [|lia].
      destruct (Z.ltb_spec 2 (Go.len l2)); [|lia]. now rewrite Hp.
Qed.

(** ** The fields object *)

Lemma scanString_escapeByte (b : ascii) (tail : string) :
  spec.scanString (formatter.json.escapeByte "" b ++ tail)
  = match spec.scanString tail with
    | Some (body, after) =>
        Some (formatter.json.escapeByte "" b ++ body, after)
    | None => None
    end.
Proof.
  destruct b as [[] [] [] [] [] [] [] []]; cbn;
    destruct (spec.scanString tail) as [[body after]|]; reflexivity.
Qed.

Lemma scanString_escapeJSON (data after : string) :
  spec.scanString (formatter.json.escapeJSON "" data ++ String Go.dq after)
  = Some (formatter.json.escapeJSON "" data, after).
Proof.
  induction data as [|b data IH]; [reflexivity|].
  rewrite escapeJSON_cons, append_assoc, scanString_escapeByte, IH.
  reflexivity.
Qed.

Lemma scanToken_append (token after : string) :
  spec.allBytes spec.notComma token = true ->
  after = "" \/ (exists rest, after = String "," rest) ->
  spec.scanToken (token ++ after) = (token, after).
Proof.
  intros Ht Ha. induction token as [|c token IH]; cbn [append].
  - destruct Ha as [->|[rest ->]]; reflexivity.
  - cbn [spec.allBytes] in Ht. apply andb_true_iff in Ht.
    destruct Ht as [Hc Ht]. cbn [spec.scanToken].
    unfold spec.notComma in Hc. apply negb_true_iff in Hc.
    now rewrite Hc, (IH Ht).
Qed.

Lemma uint_digits_notComma (d : Decimal.uint) :
  spec.allBytes spec.notComma (NilEmpty.string_of_uint d) = true.
Proof. induction d; cbn; try reflexivity; exact IHd. Qed.

Lemma FormatInt_notComma (z : Z) :
  spec.allBytes spec.notComma (Go.FormatInt z) = true.
Proof.
  unfold Go.FormatInt. destruct (Z.to_int z) as [d|d]; cbn.
  - destruct d; try reflexivity; apply (uint_digits_notComma (_ d)).
  - destruct d; try reflexivity; apply (uint_digits_notComma (_ d)).
Qed.

Lemma unescapeJSON_plain (s : string) :
  spec.allBytes spec.plainByte s = true -> spec.unescapeJSON s = Some s.
Proof.
  intros H. rewrite <- (escapeJSON_plain s H) at 1.
  apply unescapeJSON_escapeJSON.
Qed.

Lemma scanString_plain (s after : string) :
  spec.allBytes spec.plainByte s = true ->
  spec.scanString (s ++ String Go.dq after) = Some (s, after).
Proof.
  intros H. rewrite <- (escapeJSON_plain s H) at 1.
  rewrite scanString_escapeJSON. now rewrite (escapeJSON_plain s H).
Qed.

Lemma readMember_memberText (k : string) (v : core.Value)
    (j : spec.JSONScalar) (after : string) :
  spec.allBytes spec.plainByte k = true ->
  spec.jsonView v = Some j ->
  after = "" \/ (exists rest, after = String "," rest) ->
  spec.readMember (spec.memberText k v ++ after) = Some (k, j, after).
Proof.
  intros Hk Hv Ha. unfold spec.memberText. cbn [append spec.readMember].
  rewrite Ascii.eqb_refl, append_assoc. cbn [append].
  rewrite (scanString_plain k _ Hk). cbn [Ascii.eqb Bool.eqb].
  rewrite (unescapeJSON_plain k Hk).
  assert (Hstr : forall s,
             match (String Go.dq (formatter.json.escapeJSON "" s
                                  ++ Go.byte1 Go.dq) ++ after)%string with
             | "" => None
             | String v0 vrest =>
                 if Ascii.eqb v0 Go.dq
                 then
                   match spec.scanString vrest with
                   | Some (rawValue, after0) =>
                       match spec.unescapeJSON rawValue with
                       | Some text => Some (k, spec.JString text, after0)
                       | None => None
                       end
                   | None => None
                   end
                 else
                   let (token, after0) :=
                     spec.scanToken
                       (String Go.dq (formatter.json.escapeJSON "" s
                                      ++ Go.byte1 Go.dq) ++ after) in
                   match spec.readScalar token with
                   | Some j0 => Some (k, j0, after0)
                   | None => None
                   end
             end = Some (k, spec.JString s, after)).
  { intros s. cbn [append]. rewrite Ascii.eqb_refl, append_assoc.
    cbn [append Go.byte1]. rewrite scanString_escapeJSON.
    now rewrite unescapeJSON_escapeJSON. }
  assert (Htok : forall token j0,
             spec.allBytes spec.notComma token = true ->
             spec.readScalar token = Some j0 ->
             (exists c rest, token = String c rest
                             /\ Ascii.eqb c Go.dq = false) ->
             match (token ++ after)%string with
             | "" => None
             | String v0 vrest =>
                 if Ascii.eqb v0 Go.dq
                 then
                   match spec.scanString vrest with
                   | Some (rawValue, after0) =>
                       match spec.unescapeJSON rawValue with
                       | Some text => Some (k, spec.JString text, after0)
                       | None => None
                       end
                   | None => None
                   end
                 else
                   let (token0, after0) := spec.scanToken (token ++ after) in
                   match spec.readScalar token0 with
                   | Some j1 => Some (k, j1, after0)
                   | None => None
                   end
             end = Some (k, j0, after)).
  { intros token j0 Hc Hr (c & rest & E & Hq).
    rewrite (scanToken_append token after Hc Ha), Hr.
    rewrite E. cbn [append]. now rewrite Hq. }
  destruct v as [v|v|v|v|v|v|v|v|v|v|v|v|v|v|v| |v| ];
    try discriminate Hv; injection Hv as <-.
  - rewrite formatJSONValue_string. apply Hstr.
  - change (formatter.json.formatJSONValue "" (core.VBytes v))
      with (formatter.json.formatJSONValue "" (core.VString v)).
    rewrite formatJSONValue_string. apply Hstr.
  - apply (Htok (Go.FormatInt v));
      [apply FormatInt_notComma | apply readScalar_FormatInt
      | apply FormatInt_head].
  - apply (Htok (Go.FormatInt v));
      [apply FormatInt_notComma | apply readScalar_FormatInt
      | apply FormatInt_head].
  - destruct v.
    + apply (Htok "true"); [reflexivity | reflexivity |].
      eexists; eexists; split; reflexivity.
    + apply (Htok "false"); [reflexivity | reflexivity |].
      eexists; eexists; split; reflexivity.
  - apply (Htok "null"); [reflexivity | reflexivity |].
    eexists; eexists; split; reflexivity.
Qed.

Lemma formatFieldsLoop_cons (k : string) (v : core.Value)
    (rest : Go.map core.Value) (first : bool) :
  formatter.json.formatFieldsLoop "" ((k, v) :: rest) first
  = (if first then "" else ",") ++ spec.memberText k v
    ++ formatter.json.formatFieldsLoop "" rest false.
Proof.
  cbn [formatter.json.formatFieldsLoop].
  rewrite (formatFieldsLoop_append _ rest false ""
             (formatter.json.formatJSONValue _ v))
    by (symmetry; apply append_nil_r).
  rewrite formatJSONValue_append. unfold spec.memberText, Go.Write,
    Go.WriteByte, core.S2b, Go.byte1.
  destruct first; cbn [negb append]; rewrite !append_assoc; reflexivity.
Qed.

Lemma formatFieldsLoop_more (fields : Go.map core.Value) :
  formatter.json.formatFieldsLoop "" fields false
  = match fields with
    | [] => ""
    | _ :: _ => String "," (spec.fieldsText fields)
    end.
Proof.
  destruct fields as [|[k v] rest]; [reflexivity|].
  unfold spec.fieldsText. now rewrite !formatFieldsLoop_cons.
Qed.

Lemma fieldsText_length (fields : Go.map core.Value) :
  (List.length fields <= String.length (spec.fieldsText fields))%nat.
Proof.
  unfold spec.fieldsText.
  induction fields as [|[k v] rest IH]; [cbn; lia|].
  rewrite formatFieldsLoop_cons, formatFieldsLoop_more. cbn [append].
  unfold spec.memberText. cbn [append String.length].
  rewrite !length_append.
  unfold spec.fieldsText.
  destruct rest as [|kv rest']; cbn [List.length String.length] in *; lia.
Qed.

Lemma readMembers_fieldsText (fields : Go.map core.Value) :
  forall (l : list (string * spec.JSONScalar)) (fuel : nat),
    fields <> [] ->
    spec.plainNames fields = true ->
    spec.fieldViews fields = Some l ->
    (List.length fields <= fuel)%nat ->
    spec.readMembers fuel (spec.fieldsText fields) = Some l.
Proof.
  induction fields as [|[k v] rest IH]; intros l fuel Hne Hp Hv Hfuel;
    [now contradiction Hne|].
  unfold spec.plainNames in Hp. cbn [Go.keys List.map fst forallb] in Hp.
  apply andb_true_iff in Hp. destruct Hp as [Hk Hp].
  cbn [spec.fieldViews] in Hv.
  destruct (spec.jsonView v) as [j|] eqn:Hj; [|discriminate Hv].
  destruct (spec.fieldViews rest) as [js|] eqn:Hjs; [|discriminate Hv].
  injection Hv as <-.
  destruct fuel as [|fuel]; [cbn in Hfuel; lia|].
  unfold spec.fieldsText.
  rewrite formatFieldsLoop_cons, formatFieldsLoop_more. cbn [append].
  cbn [spec.readMembers].
  destruct rest as [|kv rest'].
  - rewrite (readMember_memberText k v j "" Hk Hj) by now left.
    cbn in Hjs. now injection Hjs as <-.
  - rewrite (readMember_memberText k v j _ Hk Hj)
      by (right; eexists; reflexivity).
    cbn [Ascii.eqb Bool.eqb].
    rewrite (IH js fuel); [reflexivity | discriminate | exact Hp
                          | reflexivity | cbn [List.length] in *; lia].
Qed.

(** X24.  The members the compact form writes between the braces of
    [fields] read back to the fields of the entry, name by name and value by
    value, in the order written, whenever the field names hold no quote, no
    backslash and no control byte and the values are strings, byte slices,
    [int]s, [int64]s, booleans or nil.  The string values may hold any
    bytes. *)
Theorem fields_roundtrip :
  forall (fields : Go.map core.Value) (l : list (string * spec.JSONScalar)),
    spec.plainNames fields = true ->
    spec.fieldViews fields = Some l ->
    spec.readFields (spec.fieldsText fields) = Some l.
Proof.
  intros fields l Hp Hv. destruct fields as [|kv rest].
  - cbn in Hv. injection Hv as <-. reflexivity.
  - assert (Hr : spec.readMembers
                   (String.length (spec.fieldsText (kv :: rest)))
                   (spec.fieldsText (kv :: rest)) = Some l).
    { apply readMembers_fieldsText; try assumption; [discriminate|].
      apply fieldsText_length. }
    unfold spec.readFields.
    destruct (spec.fieldsText (kv :: rest)) eqn:E; [|exact Hr].
    pose proof (fieldsText_length (kv :: rest)) as Hl. rewrite E in Hl.
    cbn in Hl. lia.
Qed.

Lemma fields_roundtrip_witness :
  spec.plainNames examples.mixedFields = true
  /\ spec.fieldViews examples.mixedFields
     = Some [("user_id", spec.JNumber 123);
             ("action", spec.JString "login");
             ("note", spec.JString examples.quotedName);
             ("ok", spec.JBool true); ("ref", spec.JNull);
             ("delta", spec.JNumber (-5))]
  /\ spec.readFields (spec.fieldsText examples.mixedFields)
     = Some [("user_id", spec.JNumber 123);
             ("action", spec.JString "login");
             ("note", spec.JString examples.quotedName);
             ("ok", spec.JBool true); ("ref", spec.JNull);
             ("delta", spec.JNumber (-5))].
Proof.
  split; [reflexivity|]. split; [reflexivity|].
  apply (fields_roundtrip examples.mixedFields); reflexivity.
Defined.
